(** * ProgressPanel: coalescing and throttled rendering of job progress

    A shallow embedding of the script of the progress panel component
    (the later of the two revisions in the repository, the one that keeps
    [details] as an array of numbered lines and a [pendingDetailIndex]
    counter), and the properties of its coalescing buffer.

    Modelling conventions.
    - JavaScript numbers carried by payloads and held in [completed],
      [total], [pendingCompleted], [pendingIncrement] and [pendingTotal] are
      counts; they are modelled as [Z], where [+] is exact.  The line counter
      [pendingDetailIndex] starts at 0 and is only ever incremented: it is an
      [N].
    - The module-level [let]s and [ref]s of the script are the fields of one
      record, [World], together with the part of the host the script talks
      to: the timeouts of [window], the listeners registered with the event
      channel, the promises of [listen] that have not resolved yet, and the
      callbacks queued with [nextTick].
    - Every function of the script is a transformer of [World], written in
      the order of its statements.  [console.log] is left out.
    - A call that spreads an array into its arguments throws [RangeError]
      when the array has more elements than the engine passes as
      arguments.  The limit differs between engines; it is a parameter of
      the host, [maxArguments]. *)

From stdpp Require Import base list strings pretty numbers.
From Stdlib Require Import QArith Qround.

Local Open Scope string_scope.
Local Open Scope list_scope.
Local Open Scope Z_scope.

(** ** Values that come from outside *)

(** [props.jobId] has type [unknown]; these are the values the pages give
    it: nothing yet, [null] after a stop, or the identifier returned by
    [start_job]. *)
Inductive JobId :=
| JobUndefined
| JobNull
| JobNumber (n : Z)
| JobString (s : string).

(** What a template literal makes of a job id. *)
Definition template (j : JobId) : string :=
  match j with
  | JobUndefined => "undefined"
  | JobNull => "null"
  | JobNumber n => pretty n
  | JobString s => s
  end.

(** [`progress:${jobId}`] *)
Definition topic (j : JobId) : string := "progress:" +:+ template j.

Module Payload.
(** [interface ProgressPayload]: every field is optional. *)
Record t := Make {
  progress : option Z;
  progressInc : option Z;
  total : option Z;
  detail : option string
}.

(** [{}] *)
Definition empty : t := Make None None None None.
End Payload.

(** [typeof x === "number"] on an optional numeric field. *)
Definition typeof_number (x : option Z) : bool :=
  match x with Some _ => true | None => false end.

(** Truthiness of an optional string field: [undefined] and [""] are falsy. *)
Definition truthy (x : option string) : bool :=
  match x with
  | Some s => negb (bool_decide (s = ""))
  | None => false
  end.

(** The string a template literal splices in for an optional string. *)
Definition splice (x : option string) : string :=
  match x with Some s => s | None => "undefined" end.

(** ** The host: the engine, timeouts, the event channel, the tick queue *)

(** The engine that runs the script.  All that is assumed of its limit on
    the arguments of one call is that a call can take as many arguments as
    the log may hold lines before it is trimmed. *)
Record Engine := MkEngine {
  maxArguments : Z;                (* the most arguments one call can take *)
  maxArguments_floor : 10500 <= maxArguments
}.

(** JavaScriptCore passes at most 65536 arguments. *)
Definition javaScriptCore : Engine :=
  MkEngine 65536 (proj1 (Z.leb_le 10500 65536) eq_refl).

Record Host := MkHost {
  timers : list nat;               (* timeouts set and neither cleared nor fired *)
  nextTimer : nat;                 (* the id the next [setTimeout] returns *)
  listeners : list (nat * string); (* registered listeners: id and topic *)
  nextListener : nat;              (* the id of the next listener *)
  resolving : list nat;            (* [listen] promises not yet resolved *)
  ticks : nat;                     (* callbacks queued with [nextTick] *)
  engine : Engine
}.

Definition host0 (e : Engine) : Host := MkHost [] 1 [] 1 [] 0 e.

(** [window.setTimeout(cb, ms)]: a fresh id, and the timeout is outstanding.
    Time is not modelled: the host runs the callback in some later turn. *)
Definition setTimeout (ms : Z) (h : Host) : nat * Host :=
  (nextTimer h,
   MkHost (timers h ++ [nextTimer h]) (S (nextTimer h))
          (listeners h) (nextListener h) (resolving h) (ticks h) (engine h)).

(** [window.clearTimeout(id)] *)
Definition clearTimeout (id : nat) (h : Host) : Host :=
  MkHost (filter (λ x, x ≠ id) (timers h)) (nextTimer h)
         (listeners h) (nextListener h) (resolving h) (ticks h) (engine h).

(** The call [listen(topic, handler)]: the listener is registered with the
    channel and a promise of its unlisten function is returned.  Deliveries
    are possible from the call on. *)
Definition listen (tp : string) (h : Host) : Host :=
  MkHost (timers h) (nextTimer h)
         (listeners h ++ [(nextListener h, tp)]) (S (nextListener h))
         (resolving h ++ [nextListener h]) (ticks h) (engine h).

(** Calling the unlisten function of listener [id]. *)
Definition unlisten (id : nat) (h : Host) : Host :=
  MkHost (timers h) (nextTimer h)
         (filter (λ x, x.1 ≠ id) (listeners h)) (nextListener h)
         (resolving h) (ticks h) (engine h).

(** [nextTick(cb)] *)
Definition nextTick (h : Host) : Host :=
  MkHost (timers h) (nextTimer h) (listeners h) (nextListener h)
         (resolving h) (S (ticks h)) (engine h).

(** The host takes an outstanding timeout off its queue before it runs it. *)
Definition dequeueTimer (id : nat) (h : Host) : Host := clearTimeout id h.

(** A promise of [listen] is settled. *)
Definition settle (id : nat) (h : Host) : Host :=
  MkHost (timers h) (nextTimer h) (listeners h) (nextListener h)
         (filter (λ x, x ≠ id) (resolving h)) (ticks h) (engine h).

(** [arr.push(...items)]: every item is an argument of the call.  With
    more items than the engine passes as arguments the call throws
    [RangeError] and nothing is pushed. *)
Definition pushSpread {A} (h : Host) (arr items : list A) : option (list A) :=
  if Z.of_nat (length items) >? maxArguments (engine h) then None
  else Some (arr ++ items).

(** ** The variables of the script *)

Record World := MkWorld {
  completed : Z;                   (* const completed = ref(0) *)
  total : Z;                       (* const total = ref(0) *)
  details : list string;           (* const details = ref<string[]>([]) *)
  flushHandle : option nat;        (* let flushHandle: number | null *)
  progressUnlisten : option nat;   (* let progressUnlisten: UnlistenFn | null *)
  pendingCompleted : option Z;     (* let pendingCompleted: number | null *)
  pendingIncrement : Z;            (* let pendingIncrement = 0 *)
  pendingTotal : option Z;         (* let pendingTotal: number | null *)
  pendingDetailIndex : N;          (* let pendingDetailIndex: number = 0 *)
  pendingDetails : list string;    (* const pendingDetails: string[] = [] *)
  host : Host
}.

(** The values the declarations give. *)
Definition init (e : Engine) : World :=
  MkWorld 0 0 [] None None None 0 None 0%N [] (host0 e).

Definition PROGRESS_THROTTLE_MS : Z := 100.

(** A statement, or a block of statements. *)
Definition Action := World → World.

Definition andThen (f g : Action) : Action := λ w, g (f w).
Infix ">>" := andThen (at level 61, left associativity).

Section Assignments.
Definition set_completed (v : Z) : Action := λ w,
  MkWorld v (total w) (details w) (flushHandle w) (progressUnlisten w)
    (pendingCompleted w) (pendingIncrement w) (pendingTotal w)
    (pendingDetailIndex w) (pendingDetails w) (host w).
Definition set_total (v : Z) : Action := λ w,
  MkWorld (completed w) v (details w) (flushHandle w) (progressUnlisten w)
    (pendingCompleted w) (pendingIncrement w) (pendingTotal w)
    (pendingDetailIndex w) (pendingDetails w) (host w).
Definition set_details (v : list string) : Action := λ w,
  MkWorld (completed w) (total w) v (flushHandle w) (progressUnlisten w)
    (pendingCompleted w) (pendingIncrement w) (pendingTotal w)
    (pendingDetailIndex w) (pendingDetails w) (host w).
Definition set_flushHandle (v : option nat) : Action := λ w,
  MkWorld (completed w) (total w) (details w) v (progressUnlisten w)
    (pendingCompleted w) (pendingIncrement w) (pendingTotal w)
    (pendingDetailIndex w) (pendingDetails w) (host w).
Definition set_progressUnlisten (v : option nat) : Action := λ w,
  MkWorld (completed w) (total w) (details w) (flushHandle w) v
    (pendingCompleted w) (pendingIncrement w) (pendingTotal w)
    (pendingDetailIndex w) (pendingDetails w) (host w).
Definition set_pendingCompleted (v : option Z) : Action := λ w,
  MkWorld (completed w) (total w) (details w) (flushHandle w)
    (progressUnlisten w) v (pendingIncrement w) (pendingTotal w)
    (pendingDetailIndex w) (pendingDetails w) (host w).
Definition set_pendingIncrement (v : Z) : Action := λ w,
  MkWorld (completed w) (total w) (details w) (flushHandle w)
    (progressUnlisten w) (pendingCompleted w) v (pendingTotal w)
    (pendingDetailIndex w) (pendingDetails w) (host w).
Definition set_pendingTotal (v : option Z) : Action := λ w,
  MkWorld (completed w) (total w) (details w) (flushHandle w)
    (progressUnlisten w) (pendingCompleted w) (pendingIncrement w) v
    (pendingDetailIndex w) (pendingDetails w) (host w).
Definition set_pendingDetailIndex (v : N) : Action := λ w,
  MkWorld (completed w) (total w) (details w) (flushHandle w)
    (progressUnlisten w) (pendingCompleted w) (pendingIncrement w)
    (pendingTotal w) v (pendingDetails w) (host w).
Definition set_pendingDetails (v : list string) : Action := λ w,
  MkWorld (completed w) (total w) (details w) (flushHandle w)
    (progressUnlisten w) (pendingCompleted w) (pendingIncrement w)
    (pendingTotal w) (pendingDetailIndex w) v (host w).
Definition set_host (v : Host) : Action := λ w,
  MkWorld (completed w) (total w) (details w) (flushHandle w)
    (progressUnlisten w) (pendingCompleted w) (pendingIncrement w)
    (pendingTotal w) (pendingDetailIndex w) (pendingDetails w) v.
(** A call into the host. *)
Definition call (f : Host → Host) : Action := λ w, set_host (f (host w)) w.
End Assignments.

(** [arr.slice(start)] for an integer [start]: a negative [start] counts
    from the end. *)
Definition slice {A} (start : Z) (l : list A) : list A :=
  if start <? 0
  then drop (Z.to_nat (Z.max (Z.of_nat (length l) + start) 0)) l
  else drop (Z.to_nat start) l.

(** [arr.join(sep)] *)
Fixpoint join (sep : string) (l : list string) : string :=
  match l with
  | [] => ""
  | [x] => x
  | x :: rest => x +:+ sep +:+ join sep rest
  end.

Definition newline : string := String (Ascii.ascii_of_nat 10) "".

(** ** The script *)

(** [const joinedDetails = computed(() => details.value.join("\n"))] *)
Definition joinedDetails (w : World) : string := join newline (details w).

(** The result of evaluating a numeric expression that may divide. *)
Inductive Number :=
| Finite (q : Q)
| DivisionByZero.

(** [a / b] on counts.  JavaScript does not throw on a zero divisor, it
    yields an infinity or NaN; the model names that outcome. *)
Definition divide (a b : Z) : Number :=
  if b =? 0 then DivisionByZero else Finite (inject_Z a / inject_Z b)%Q.

Definition linearProgress (w : World) : Number :=
  if total w =? 0 then Finite 0%Q
  else divide (completed w) (total w).

(** The template's [:indeterminate="total === 0"]. *)
Definition indeterminate (w : World) : bool := total w =? 0.

Definition cancelFlushTimer : Action := λ w,
  match flushHandle w with
  | Some h => (call (clearTimeout h) >> set_flushHandle None) w
  | None => w
  end.

Definition resetPending : Action :=
  set_pendingCompleted None >>
  set_pendingIncrement 0 >>
  set_pendingTotal None >>
  set_pendingDetailIndex 0%N >>
  set_pendingDetails [].

Definition clearDisplayedProgress : Action :=
  set_completed 0 >>
  set_total 0 >>
  set_details [].

Definition flushProgressUpdates : Action :=
  (λ w, match pendingTotal w with
        | Some t => (set_total t >> set_pendingTotal None) w
        | None => w
        end) >>
  (λ w, match pendingCompleted w with
        | Some c => (set_completed c >> set_pendingCompleted None) w
        | None => w
        end) >>
  (λ w, if pendingIncrement w =? 0 then w
        else (set_completed (completed w + pendingIncrement w) >>
              set_pendingIncrement 0) w) >>
  (λ w, if Z.of_nat (length (pendingDetails w)) =? 0 then w (* return *)
        else
          match pushSpread (host w) (details w) (pendingDetails w) with
          | None => w (* RangeError: nothing below runs *)
          | Some pushed =>
              (set_details pushed >>
               set_pendingDetails [] >>
               (λ w, if Z.of_nat (length (details w)) >? 10500
                     then set_details
                            (slice (Z.of_nat (length (details w)) - 10000)
                                   (details w)) w
                     else w) >>
               call nextTick) w
          end).

(** The callback given to [setTimeout].  A [RangeError] thrown by
    [flushProgressUpdates] ends the callback; the host reports it and goes
    on with the next turn. *)
Definition flushCallback : Action :=
  set_flushHandle None >>
  flushProgressUpdates.

Definition scheduleProgressFlush : Action := λ w,
  match flushHandle w with
  | Some _ => w (* return *)
  | None =>
      let '(h, hst) := setTimeout PROGRESS_THROTTLE_MS (host w) in
      (set_host hst >> set_flushHandle (Some h)) w
  end.

(** [`[${pendingDetailIndex}] ${payload.detail}`] *)
Definition numbered (idx : N) (text : string) : string :=
  "[" +:+ pretty idx +:+ "] " +:+ text.

(** The handler given to [listen]. *)
Definition onProgress (payload : Payload.t) : Action :=
  (λ w, if typeof_number (Payload.progress payload)
        then set_pendingCompleted (Payload.progress payload) w
        else w) >>
  (λ w, match Payload.progressInc payload with
        | Some inc => set_pendingIncrement (pendingIncrement w + inc) w
        | None => w
        end) >>
  (λ w, if typeof_number (Payload.total payload)
        then set_pendingTotal (Payload.total payload) w
        else w) >>
  (λ w, if truthy (Payload.detail payload)
        then
          ((λ w, set_pendingDetailIndex (pendingDetailIndex w + 1)%N w) >>
           (λ w, set_pendingDetails
                   (pendingDetails w ++
                    [numbered (pendingDetailIndex w)
                              (splice (Payload.detail payload))]) w)) w
        else w) >>
  scheduleProgressFlush.

(** The other revision of the panel keeps [details] as one string and
    numbers the lines when it displays them.  Its handler has the same
    pending variables, without the counter, and queues the line as it
    came; the rest of it is the same. *)
Module Raw.
Definition onProgress (payload : Payload.t) : Action :=
  (λ w, if typeof_number (Payload.progress payload)
        then set_pendingCompleted (Payload.progress payload) w
        else w) >>
  (λ w, match Payload.progressInc payload with
        | Some inc => set_pendingIncrement (pendingIncrement w + inc) w
        | None => w
        end) >>
  (λ w, if typeof_number (Payload.total payload)
        then set_pendingTotal (Payload.total payload) w
        else w) >>
  (λ w, if truthy (Payload.detail payload)
        then set_pendingDetails
               (pendingDetails w ++ [splice (Payload.detail payload)]) w
        else w) >>
  scheduleProgressFlush.
End Raw.

(** [startListening] up to its [await]: everything before the promise of
    [listen] is awaited runs in one turn of the event loop. *)
Definition startListening (jobId : JobId) : Action :=
  clearDisplayedProgress >>
  resetPending >>
  cancelFlushTimer >>
  (λ w, match progressUnlisten w with
        | Some u => call (unlisten u) w
        | None => w
        end) >>
  call (listen (topic jobId)).

(** The rest of [startListening], once the promise has resolved with the
    unlisten function of listener [id]. *)
Definition startListening_resumed (id : nat) : Action :=
  call (settle id) >>
  set_progressUnlisten (Some id).

Definition onBeforeUnmount : Action :=
  cancelFlushTimer >>
  (λ w, match progressUnlisten w with
        | Some u => call (unlisten u) w
        | None => w
        end) >>
  set_progressUnlisten None.

(** ** The event loop *)

Inductive Event :=
| JobIdChanged (jobId : JobId)          (* the watcher of [props.jobId] runs *)
| ListenResolved (id : nat)             (* a promise of [listen] resolves *)
| Emitted (id : nat) (p : Payload.t)    (* the channel calls listener [id] *)
| TimeoutFired (h : nat)                (* the host runs timeout [h] *)
| BeforeUnmount.

(** One turn of the event loop.  An event the host cannot produce in the
    current world (a listener that is not registered, a timeout that is not
    outstanding, a promise that is not pending) changes nothing. *)
Definition turn (e : Event) : Action := λ w,
  match e with
  | JobIdChanged j => startListening j w
  | ListenResolved id =>
      if bool_decide (id ∈ resolving (host w))
      then startListening_resumed id w else w
  | Emitted id p =>
      if bool_decide (id ∈ (listeners (host w)).*1)
      then onProgress p w else w
  | TimeoutFired h =>
      if bool_decide (h ∈ timers (host w))
      then (call (dequeueTimer h) >> flushCallback) w else w
  | BeforeUnmount => onBeforeUnmount w
  end.

(** A run of the event loop from the left. *)
Definition run (es : list Event) : Action := λ w, foldl (λ w e, turn e w) w es.

(** All payloads of a list, one handler call after the other. *)
Definition ingestAll (ps : list Payload.t) : Action :=
  λ w, foldl (λ w p, onProgress p w) w ps.

(** ** The revision that keeps the log as one string *)

(** [str.split(sep)] for a separator of one character: the pieces between
    the occurrences of the separator, so one piece more than there are
    occurrences; the empty string gives one empty piece. *)
Fixpoint split (sep : Ascii.ascii) (s : string) : list string :=
  match s with
  | EmptyString => [""]
  | String c rest =>
      if Ascii.eqb c sep then "" :: split sep rest
      else match split sep rest with
           | [] => [String c ""]
           | piece :: pieces => String c piece :: pieces
           end
  end.

(** [arr.slice(start, end)] for integers: a negative index counts from the
    end, and both are clamped to the array. *)
Definition slice2 {A} (start stop : Z) (l : list A) : list A :=
  let len := Z.of_nat (length l) in
  let from := if start <? 0 then Z.max (len + start) 0 else Z.min start len in
  let to := if stop <? 0 then Z.max (len + stop) 0 else Z.min stop len in
  take (Z.to_nat (to - from)) (drop (Z.to_nat from) l).

(** The character of ["\n"]. *)
Definition newlineChar : Ascii.ascii := Ascii.ascii_of_nat 10.

Module Text.
(** The variables of this revision: [details] is a string, and the other
    variables are those of [World], of which the list [details] and the
    counter [pendingDetailIndex] do not exist here and are never used. *)
Record Panel := MkPanel {
  details : string;                (* const details = ref("") *)
  vars : World
}.

Definition init (e : Engine) : Panel := MkPanel "" (init e).

(** A statement on the shared variables. *)
Definition on_vars (f : Action) : Panel → Panel :=
  λ p, MkPanel (details p) (f (vars p)).

Definition set_details (v : string) : Panel → Panel :=
  λ p, MkPanel v (vars p).

(** [const detailsWithLines = computed(() => details.value.split("\n")
      .slice(0, -1).map((s, i) => `[${i + 1}] ${s}`).join("\n"))] *)
Definition detailsWithLines (p : Panel) : string :=
  join newline
    (imap (λ i s, numbered (N.of_nat (i + 1)) s)
       (slice2 0 (-1) (split newlineChar (details p)))).

Definition resetPending : Panel → Panel :=
  on_vars (set_pendingCompleted None >>
           set_pendingIncrement 0 >>
           set_pendingTotal None >>
           set_pendingDetails []).

Definition clearDisplayedProgress : Panel → Panel := λ p,
  let p := on_vars (set_completed 0 >> set_total 0) p in
  set_details "" p.

Definition flushProgressUpdates : Panel → Panel := λ p,
  let p :=
    on_vars
      ((λ w, match pendingTotal w with
             | Some t => (set_total t >> set_pendingTotal None) w
             | None => w
             end) >>
       (λ w, match pendingCompleted w with
             | Some c => (set_completed c >> set_pendingCompleted None) w
             | None => w
             end) >>
       (λ w, if pendingIncrement w =? 0 then w
             else (set_completed (completed w + pendingIncrement w) >>
                   set_pendingIncrement 0) w)) p in
  if Z.of_nat (length (pendingDetails (vars p))) =? 0 then p (* return *)
  else
    let appended := join newline (pendingDetails (vars p)) in
    let p := on_vars (set_pendingDetails []) p in
    let p := set_details (details p +:+ (appended +:+ newline)) p in
    on_vars (call nextTick) p.

(** The callback given to [setTimeout]. *)
Definition flushCallback : Panel → Panel := λ p,
  flushProgressUpdates (on_vars (set_flushHandle None) p).

(** The handler given to [listen]. *)
Definition onProgress (payload : Payload.t) : Panel → Panel :=
  on_vars (Raw.onProgress payload).

(** [startListening] up to its [await]. *)
Definition startListening (jobId : JobId) : Panel → Panel := λ p,
  let p := clearDisplayedProgress p in
  let p := resetPending p in
  on_vars
    (cancelFlushTimer >>
     (λ w, match progressUnlisten w with
           | Some u => call (unlisten u) w
           | None => w
           end) >>
     call (listen (topic jobId))) p.

(** All payloads of a list, one handler call after the other. *)
Definition ingestAll (ps : list Payload.t) : Panel → Panel :=
  λ p, foldl (λ p x, onProgress x p) p ps.

(** Windows of payloads, each followed by its flush. *)
Definition windows (batches : list (list Payload.t)) : Panel → Panel :=
  λ p, foldl (λ p ps, flushCallback (ingestAll ps p)) p batches.
End Text.

(** ** The page that shows the panel *)

Module ComputePage.
(** [Math.ceil(t / 2)] on the count [get_parallelism] returns. *)
Definition defaultThreads (t : Z) : Z := Qceiling (inject_Z t / 2).

(** The [:disable] of the Process button. *)
Definition processDisabled (inputPath : string) (threads : Z)
    (timelapseEnabled exportEnabled : bool) : bool :=
  bool_decide (inputPath = "")
  || (threads <? 1)
  || (negb timelapseEnabled && negb exportEnabled).
End ComputePage.

(** * Notions used in the statements *)

(** ** Eviction, windows, numbered lines *)

(** The eviction step of [flushProgressUpdates], on the log after the push. *)
Definition evict (log : list string) : list string :=
  if Z.of_nat (length log) >? 10500
  then slice (Z.of_nat (length log) - 10000) log
  else log.

(** Last write wins: the last number written in the window, or the old value. *)
Definition lastWrite (old : option Z) (xs : list (option Z)) : option Z :=
  foldl (λ acc x, if typeof_number x then x else acc) old xs.

(** The sum of the increments of the window. *)
Definition sumIncrements (ps : list Payload.t) : Z :=
  foldr (λ p acc, default 0 (Payload.progressInc p) + acc) 0 ps.

(** The lines of the window in arrival order, numbered on from [idx]. *)
Fixpoint numberLines (idx : N) (ps : list Payload.t) : list string :=
  match ps with
  | [] => []
  | p :: ps =>
      if truthy (Payload.detail p)
      then numbered (idx + 1) (splice (Payload.detail p))
             :: numberLines (idx + 1) ps
      else numberLines idx ps
  end.

(** How many payloads of the window carry a line. *)
Definition countLines (ps : list Payload.t) : N :=
  N.of_nat (length (filter (λ p, truthy (Payload.detail p) = true) ps)).

(** Lines numbered [first], [first + 1], ... in this order. *)
Fixpoint numberedFrom (first : N) (texts : list string) : list string :=
  match texts with
  | [] => []
  | t :: ts => numbered first t :: numberedFrom (first + 1) ts
  end.

(** The queue has more lines than one call can take. *)
Definition overflows (w : World) : bool :=
  Z.of_nat (length (pendingDetails w)) >? maxArguments (engine (host w)).

(** ** Invariants *)

(** The outstanding timeouts are exactly the one [flushHandle] names. *)
Definition timer_inv (w : World) : Prop :=
  timers (host w) = match flushHandle w with Some h => [h] | None => [] end.

(** The committed log and the pending lines together are one run of
    consecutively numbered lines that ends at the counter. *)
Definition log_inv (w : World) : Prop :=
  ∃ first shown waiting,
    details w = numberedFrom first shown ∧
    pendingDetails w = numberedFrom (first + N.of_nat (length shown)) waiting ∧
    (first + N.of_nat (length shown) + N.of_nat (length waiting)
     = pendingDetailIndex w + 1)%N.

(** The committed log never grows past the eviction threshold. *)
Definition bounded_inv (w : World) : Prop :=
  Z.of_nat (length (details w)) ≤ 10500.

Definition inv (w : World) : Prop := timer_inv w ∧ log_inv w ∧ bounded_inv w.

(** Nothing is pending. *)
Definition clean (w : World) : Prop :=
  pendingCompleted w = None ∧ pendingIncrement w = 0 ∧
  pendingTotal w = None ∧ pendingDetails w = [].

(** With no flush scheduled, no number is pending, and no line unless the
    queue has outgrown the engine. *)
Definition idle_inv (w : World) : Prop :=
  flushHandle w = None →
  pendingCompleted w = None ∧ pendingIncrement w = 0 ∧
  pendingTotal w = None ∧
  (pendingDetails w = [] ∨ overflows w = true).

(** ** Lines and listeners *)

(** How often a character occurs in a string. *)
Fixpoint occurs (c : Ascii.ascii) (s : string) : nat :=
  match s with
  | EmptyString => 0
  | String x rest => (if Ascii.eqb x c then 1 else 0) + occurs c rest
  end.

(** Lines, each followed by a newline, one after the other. *)
Fixpoint blocks (ls : list string) : string :=
  match ls with
  | [] => ""
  | l :: ls => l +:+ newline +:+ blocks ls
  end.

(** The pieces [detailsWithLines] numbers. *)
Definition shownLines (p : Text.Panel) : list string :=
  slice2 0 (-1) (split newlineChar (Text.details p)).

(** No newline in the line a payload carries. *)
Definition oneLine (p : Payload.t) : Prop :=
  occurs newlineChar (splice (Payload.detail p)) = 0%nat.

(** The lines a window of payloads carries, in arrival order. *)
Definition texts (ps : list Payload.t) : list string :=
  omap (λ p, if truthy (Payload.detail p) then Payload.detail p else None) ps.

(** Windows of payloads on the panel with numbered lines, each followed by
    its flush. *)
Definition windows (batches : list (list Payload.t)) : Action :=
  λ w, foldl (λ w ps, flushCallback (ingestAll ps w)) w batches.

(** The identifiers of the registered listeners. *)
Definition listenerIds (w : World) : list nat := (listeners (host w)).*1.

(** An event that neither delivers a payload nor changes the job id. *)
Definition quiet (e : Event) : Prop :=
  match e with
  | JobIdChanged _ | Emitted _ _ => False
  | ListenResolved _ | TimeoutFired _ | BeforeUnmount => True
  end.

(** An event other than a change of the job id. *)
Definition steady (e : Event) : Prop :=
  match e with
  | JobIdChanged _ => False
  | _ => True
  end.

(** The displayed and the pending variables are the same in two worlds. *)
Definition same_variables (v w : World) : Prop :=
  completed v = completed w ∧ total v = total w ∧ details v = details w ∧
  pendingCompleted v = pendingCompleted w ∧
  pendingIncrement v = pendingIncrement w ∧
  pendingTotal v = pendingTotal w ∧
  pendingDetails v = pendingDetails w ∧
  pendingDetailIndex v = pendingDetailIndex w.

(** Identifiers in use are below the next one the channel hands out. *)
Definition fresh_inv (w : World) : Prop :=
  (∀ id, id ∈ listenerIds w → (id < nextListener (host w))%nat) ∧
  (∀ id, id ∈ resolving (host w) → (id < nextListener (host w))%nat) ∧
  (∀ id, progressUnlisten w = Some id → (id < nextListener (host w))%nat).

(** ** Inputs of the examples *)

(** The cap the specification names for the committed log. *)
Definition L_max : Z := 10000.

(** A payload that carries one line and nothing else. *)
Definition line (text : string) : Payload.t :=
  Payload.Make None None None (Some text).

(** A job is bound, its listener resolves, and [n] lines arrive in one
    window. *)
Definition window (n : Z) : list Event :=
  [JobIdChanged (JobNumber 1); ListenResolved 1]
  ++ (Emitted 1 <$> replicate (Z.to_nat n) (line "x")).

(** The same, and the flush runs. *)
Definition burst (n : Z) : list Event := window n ++ [TimeoutFired 1].

(** The increments of the window, in arrival order. *)
Definition increments (ps : list Payload.t) : list Z :=
  omap Payload.progressInc ps.

(** * Properties *)

(** ** Unfolding the script *)

Ltac script :=
  unfold onBeforeUnmount, startListening_resumed, startListening,
    onProgress, scheduleProgressFlush, flushCallback, flushProgressUpdates,
    clearDisplayedProgress, resetPending, cancelFlushTimer, call, andThen
    in *.

Ltac fields := cbn [completed total details flushHandle progressUnlisten
    pendingCompleted pendingIncrement pendingTotal pendingDetailIndex
    pendingDetails host set_completed set_total set_details set_flushHandle
    set_progressUnlisten set_pendingCompleted set_pendingIncrement
    set_pendingTotal set_pendingDetailIndex set_pendingDetails set_host
    timers nextTimer listeners nextListener resolving ticks engine setTimeout
    clearTimeout listen unlisten nextTick dequeueTimer settle
    Payload.progress Payload.progressInc Payload.total Payload.detail
    typeof_number default fst snd] in *.

Lemma filter_ne_singleton (h : nat) : filter (λ x, x ≠ h) [h] = [].
Proof. cbn. case_decide; [congruence|done]. Qed.

Lemma cancelFlushTimer_inv w :
  timer_inv w → timer_inv (cancelFlushTimer w) ∧ flushHandle (cancelFlushTimer w) = None
   ∧ timers (host (cancelFlushTimer w)) = [].
Proof.
  unfold timer_inv. script. destruct w as [c t d fh pu pc pi pt px pd hst]; fields.
  destruct fh as [h|]; fields; intros ->; rewrite ?filter_ne_singleton; done.
Qed.

Lemma onProgress_timer_inv p w : timer_inv w → timer_inv (onProgress p w).
Proof.
  unfold timer_inv. script. destruct w as [c t d fh pu pc pi pt px pd hst], p as [a b e f]; fields.
  destruct a, b, e, (truthy f), fh; fields; intros ->; done.
Qed.

(** ** What one call does to each variable *)

Lemma overflows_nil w : pendingDetails w = [] → overflows w = false.
Proof.
  unfold overflows. intros ->. cbn [length].
  pose proof (maxArguments_floor (engine (host w))).
  destruct (Z.gtb_spec (Z.of_nat 0) (maxArguments (engine (host w)))); [lia|done].
Qed.

Lemma flush_vars w :
  let w' := flushProgressUpdates w in
  total w' = default (total w) (pendingTotal w) ∧
  completed w' = default (completed w) (pendingCompleted w) + pendingIncrement w ∧
  details w' = (if overflows w then details w
                else match pendingDetails w with
                     | [] => details w
                     | _ => evict (details w ++ pendingDetails w)
                     end) ∧
  pendingTotal w' = None ∧ pendingCompleted w' = None ∧
  pendingIncrement w' = 0 ∧
  pendingDetails w' = (if overflows w then pendingDetails w else []) ∧
  pendingDetailIndex w' = pendingDetailIndex w ∧
  flushHandle w' = flushHandle w ∧
  progressUnlisten w' = progressUnlisten w ∧
  timers (host w') = timers (host w) ∧
  listeners (host w') = listeners (host w) ∧
  resolving (host w') = resolving (host w).
Proof.
  pose proof (overflows_nil w) as Hnil. revert Hnil.
  unfold overflows. script. unfold pushSpread.
  destruct w as [c t d fh pu pc pi pt px pd hst]. fields. intros Hnil.
  destruct pt as [t'|], pc as [c'|]; fields;
    (destruct (Z.eqb_spec pi 0) as [->|Hpi]; fields;
     [rewrite Z.add_0_r|]);
    (destruct pd as [|l pd]; [rewrite Hnil by done; done|]);
    (replace (Z.of_nat (length (l :: pd)) =? 0) with false
       by (symmetry; apply Z.eqb_neq; cbn [length]; lia));
    (destruct (Z.of_nat (length (l :: pd)) >? maxArguments (engine hst));
     [done|]);
    unfold evict; case_match; fields; done.
Qed.

Lemma flush_engine w :
  engine (host (flushProgressUpdates w)) = engine (host w).
Proof.
  script. unfold pushSpread.
  destruct w as [c t d fh pu pc pi pt px pd hst]. fields.
  destruct pt as [t'|], pc as [c'|]; fields;
    (destruct (Z.eqb_spec pi 0) as [->|Hpi]; fields);
    (destruct pd as [|l pd]; [done|]);
    (replace (Z.of_nat (length (l :: pd)) =? 0) with false
       by (symmetry; apply Z.eqb_neq; cbn [length]; lia));
    (destruct (Z.of_nat (length (l :: pd)) >? maxArguments (engine hst));
     [done|]);
    case_match; fields; done.
Qed.

Lemma onProgress_vars p w :
  let w' := onProgress p w in
  pendingCompleted w' =
    (if typeof_number (Payload.progress p) then Payload.progress p
     else pendingCompleted w) ∧
  pendingIncrement w' = pendingIncrement w + default 0 (Payload.progressInc p) ∧
  pendingTotal w' =
    (if typeof_number (Payload.total p) then Payload.total p
     else pendingTotal w) ∧
  pendingDetailIndex w' =
    (if truthy (Payload.detail p) then (pendingDetailIndex w + 1)%N
     else pendingDetailIndex w) ∧
  pendingDetails w' =
    pendingDetails w ++
    (if truthy (Payload.detail p)
     then [numbered (pendingDetailIndex w + 1) (splice (Payload.detail p))]
     else []) ∧
  completed w' = completed w ∧ total w' = total w ∧ details w' = details w ∧
  progressUnlisten w' = progressUnlisten w ∧
  flushHandle w' = Some (default (nextTimer (host w)) (flushHandle w)) ∧
  timers (host w') =
    match flushHandle w with
    | Some _ => timers (host w)
    | None => timers (host w) ++ [nextTimer (host w)]
    end ∧
  listeners (host w') = listeners (host w) ∧
  resolving (host w') = resolving (host w) ∧
  ticks (host w') = ticks (host w).
Proof.
  script. destruct w as [c t d fh pu pc pi pt px pd hst], p as [a b e f].
  fields.
  destruct a, b, e, (truthy f), fh; fields;
    rewrite ?Z.add_0_r, ?app_nil_r; done.
Qed.

(** ** What a window of payloads amounts to *)

Lemma ingestAll_cons p ps w :
  ingestAll (p :: ps) w = ingestAll ps (onProgress p w).
Proof. done. Qed.

Lemma ingestAll_app ps qs w :
  ingestAll (ps ++ qs) w = ingestAll qs (ingestAll ps w).
Proof. unfold ingestAll. apply foldl_app. Qed.

Lemma ingestAll_vars ps w :
  let w' := ingestAll ps w in
  pendingCompleted w' = lastWrite (pendingCompleted w) (Payload.progress <$> ps) ∧
  pendingIncrement w' = pendingIncrement w + sumIncrements ps ∧
  pendingTotal w' = lastWrite (pendingTotal w) (Payload.total <$> ps) ∧
  pendingDetailIndex w' = (pendingDetailIndex w + countLines ps)%N ∧
  pendingDetails w' = pendingDetails w ++ numberLines (pendingDetailIndex w) ps ∧
  completed w' = completed w ∧ total w' = total w ∧ details w' = details w ∧
  progressUnlisten w' = progressUnlisten w ∧
  listeners (host w') = listeners (host w) ∧
  resolving (host w') = resolving (host w) ∧
  ticks (host w') = ticks (host w).
Proof.
  revert w. induction ps as [|p ps IH]; intros w.
  - cbn. rewrite Z.add_0_r, N.add_0_r, app_nil_r. done.
  - cbn zeta. rewrite ingestAll_cons.
    destruct (IH (onProgress p w)) as (-> & -> & -> & -> & -> & -> & -> & -> & -> & -> & -> & ->).
    destruct (onProgress_vars p w) as (-> & -> & -> & -> & -> & -> & -> & -> & -> & _ & _ & -> & -> & ->).
    change (sumIncrements (p :: ps))
      with (default 0 (Payload.progressInc p) + sumIncrements ps).
    unfold countLines. cbn [fmap list_fmap lastWrite foldl numberLines].
    rewrite filter_cons.
    destruct (truthy (Payload.detail p)) eqn:Ht.
    + rewrite decide_True by done. cbn [length]. rewrite <- app_assoc.
      repeat split; try done; lia.
    + rewrite decide_False by done. rewrite app_nil_r.
      repeat split; try done; lia.
Qed.

(** ** Slicing and eviction *)

Lemma slice_nonneg {A} (start : Z) (l : list A) :
  0 ≤ start → slice start l = drop (Z.to_nat start) l.
Proof.
  intros H. unfold slice.
  destruct (Z.ltb_spec start 0); [lia|done].
Qed.

Lemma evict_small log : Z.of_nat (length log) ≤ 10500 → evict log = log.
Proof.
  intros H. unfold evict.
  destruct (Z.gtb_spec (Z.of_nat (length log)) 10500); [lia|done].
Qed.

Lemma evict_large log :
  10500 < Z.of_nat (length log) →
  evict log = drop (Z.to_nat (Z.of_nat (length log) - 10000)) log ∧
  Z.of_nat (length (evict log)) = 10000.
Proof.
  intros H. unfold evict.
  destruct (Z.gtb_spec (Z.of_nat (length log)) 10500); [|lia].
  rewrite slice_nonneg by lia.
  split; [done|]. rewrite length_drop. lia.
Qed.

Lemma evict_drop log :
  ∃ k, evict log = drop k log ∧ (k ≤ length log)%nat ∧
       Z.of_nat (length (evict log)) ≤ 10500.
Proof.
  destruct (Z.le_gt_cases (Z.of_nat (length log)) 10500) as [H|H].
  - exists 0%nat. rewrite evict_small by done. rewrite drop_0.
    split; [done|]. split; lia.
  - apply evict_large in H as [-> E].
    exists (Z.to_nat (Z.of_nat (length log) - 10000)).
    split; [done|]. split; [lia|]. rewrite length_drop in *. lia.
Qed.

(** ** Numbered lines *)

Lemma numberedFrom_length first texts :
  length (numberedFrom first texts) = length texts.
Proof.
  revert first. induction texts as [|t ts IH]; intros first; cbn; [done|].
  by rewrite IH.
Qed.

Lemma numberedFrom_app first ts us :
  numberedFrom first (ts ++ us) =
  numberedFrom first ts ++ numberedFrom (first + N.of_nat (length ts)) us.
Proof.
  revert first. induction ts as [|t ts IH]; intros first; cbn [numberedFrom app length].
  - by rewrite N.add_0_r.
  - rewrite IH. do 3 f_equal. lia.
Qed.

Lemma numberedFrom_drop k first ts :
  drop k (numberedFrom first ts) = numberedFrom (first + N.of_nat k) (drop k ts).
Proof.
  revert first ts. induction k as [|k IH]; intros first ts.
  - rewrite !drop_0. by rewrite N.add_0_r.
  - destruct ts as [|t ts]; [done|]. cbn [numberedFrom drop].
    rewrite IH. f_equal. lia.
Qed.

(** ** Invariants of the event loop *)

Lemma init_inv e : inv (init e).
Proof.
  split; [done|]. split; [|unfold bounded_inv; cbn; lia].
  exists 1%N, [], []. done.
Qed.

Lemma onProgress_inv p w : inv w → inv (onProgress p w).
Proof.
  intros (Ht & (first & shown & waiting & Hd & Hp & Hx) & Hb).
  split; [by apply onProgress_timer_inv|].
  destruct (onProgress_vars p w)
    as (_ & _ & _ & Ex & Ep & _ & _ & Ed & _).
  split; [|unfold bounded_inv; by rewrite Ed].
  destruct (truthy (Payload.detail p)).
  - exists first, shown, (waiting ++ [splice (Payload.detail p)]).
    rewrite Ed, Ep, Ex, Hp, numberedFrom_app, length_app. cbn [numberedFrom length].
    split; [done|]. split; [|lia].
    do 3 f_equal. lia.
  - exists first, shown, waiting.
    rewrite Ed, Ep, Ex, app_nil_r. done.
Qed.

Lemma flushProgressUpdates_log_inv w :
  log_inv w → bounded_inv w →
  log_inv (flushProgressUpdates w) ∧ bounded_inv (flushProgressUpdates w).
Proof.
  intros (first & shown & waiting & Hd & Hp & Hx) Hb.
  destruct (flush_vars w)
    as (_ & _ & Ed & _ & _ & _ & Ep & Ex & _).
  unfold log_inv, bounded_inv. rewrite Ed, Ep, Ex.
  destruct (overflows w).
  { split; [|done]. by exists first, shown, waiting. }
  destruct (pendingDetails w) as [|l pd] eqn:Epd.
  - split; [|done]. exists first, shown, [].
    assert (waiting = []) as ->.
    { destruct waiting; [done|discriminate]. }
    cbn in *. done.
  - rewrite <- Epd in Hp |- *. clear Epd.
    destruct (evict_drop (details w ++ pendingDetails w)) as (k & -> & Hk & Hlen).
    split; [|done].
    rewrite Hd, Hp, <- numberedFrom_app in Hk.
    rewrite Hd, Hp, <- numberedFrom_app.
    rewrite numberedFrom_length in Hk.
    exists (first + N.of_nat k)%N, (drop k (shown ++ waiting)), [].
    rewrite numberedFrom_drop. split; [done|]. split; [done|].
    rewrite length_drop. rewrite length_app in *. cbn [length]. lia.
Qed.

Lemma flushCallback_vars w :
  let w' := flushCallback w in
  total w' = default (total w) (pendingTotal w) ∧
  completed w' = default (completed w) (pendingCompleted w) + pendingIncrement w ∧
  details w' = (if overflows w then details w
                else match pendingDetails w with
                     | [] => details w
                     | _ => evict (details w ++ pendingDetails w)
                     end) ∧
  pendingTotal w' = None ∧ pendingCompleted w' = None ∧
  pendingIncrement w' = 0 ∧
  pendingDetails w' = (if overflows w then pendingDetails w else []) ∧
  pendingDetailIndex w' = pendingDetailIndex w ∧
  flushHandle w' = None ∧
  progressUnlisten w' = progressUnlisten w ∧
  timers (host w') = timers (host w) ∧
  listeners (host w') = listeners (host w) ∧
  resolving (host w') = resolving (host w).
Proof.
  unfold flushCallback, andThen.
  destruct (flush_vars (set_flushHandle None w))
    as (-> & -> & -> & -> & -> & -> & -> & -> & -> & -> & -> & -> & ->).
  destruct w; done.
Qed.

Lemma flushCallback_log_inv w :
  log_inv w → bounded_inv w →
  log_inv (flushCallback w) ∧ bounded_inv (flushCallback w).
Proof.
  intros Hl Hb. apply flushProgressUpdates_log_inv; destruct w; done.
Qed.

(** What the synchronous part of [startListening] leaves behind. *)
Lemma startListening_vars j w :
  let w' := startListening j w in
  completed w' = 0 ∧ total w' = 0 ∧ details w' = [] ∧
  pendingCompleted w' = None ∧ pendingIncrement w' = 0 ∧
  pendingTotal w' = None ∧ pendingDetailIndex w' = 0%N ∧
  pendingDetails w' = [] ∧ flushHandle w' = None ∧
  progressUnlisten w' = progressUnlisten w ∧
  timers (host w') =
    match flushHandle w with
    | Some h => filter (λ x, x ≠ h) (timers (host w))
    | None => timers (host w)
    end ∧
  listeners (host w') =
    match progressUnlisten w with
    | Some u => filter (λ x, x.1 ≠ u) (listeners (host w))
    | None => listeners (host w)
    end ++ [(nextListener (host w), topic j)] ∧
  resolving (host w') = resolving (host w) ++ [nextListener (host w)].
Proof.
  script. destruct w as [c t d fh pu pc pi pt px pd hst]. fields.
  destruct fh, pu; fields; done.
Qed.

Lemma startListening_inv j w : inv w → inv (startListening j w).
Proof.
  intros (Ht & _ & _).
  destruct (startListening_vars j w)
    as (_ & _ & Ed & _ & _ & _ & Ex & Ep & Ef & _ & Etm & _).
  unfold inv, timer_inv, log_inv, bounded_inv.
  rewrite Ed, Ex, Ep, Ef, Etm. split; [|split; [|cbn; lia]].
  - rewrite Ht. destruct (flushHandle w); [apply filter_ne_singleton|done].
  - exists 1%N, [], []. done.
Qed.

Lemma startListening_resumed_inv id w :
  inv w → inv (startListening_resumed id w).
Proof.
  unfold inv, timer_inv, log_inv, bounded_inv. script.
  destruct w. fields. done.
Qed.

Lemma onBeforeUnmount_inv w : inv w → inv (onBeforeUnmount w).
Proof.
  intros (Ht & Hl & Hb).
  destruct (cancelFlushTimer_inv w Ht) as (Ht' & _ & _).
  assert (log_inv (cancelFlushTimer w) ∧ bounded_inv (cancelFlushTimer w))
    as [Hl' Hb'].
  { unfold cancelFlushTimer. destruct w as [c t d [h|] pu pc pi pt px pd hst]; done. }
  unfold onBeforeUnmount, andThen.
  revert Ht' Hl' Hb'. generalize (cancelFlushTimer w). intros w'.
  unfold inv, timer_inv, log_inv, bounded_inv. script.
  destruct w' as [c t d fh [u|] pc pi pt px pd hst]; fields; done.
Qed.

Lemma dequeue_fire_inv h w :
  h ∈ timers (host w) → inv w →
  inv ((call (dequeueTimer h) >> flushCallback) w).
Proof.
  intros Hin (Ht & Hl & Hb). unfold andThen.
  set (w1 := call (dequeueTimer h) w).
  assert (log_inv w1 ∧ bounded_inv w1) as [Hl1 Hb1] by (destruct w; done).
  assert (timers (host w1) = []) as Ht1.
  { unfold timer_inv in Ht. subst w1. destruct w as [c t d fh pu pc pi pt px pd hst].
    script. fields. rewrite Ht in *.
    destruct fh as [h'|]; [|by apply elem_of_nil in Hin].
    apply list_elem_of_singleton in Hin as ->. apply filter_ne_singleton. }
  destruct (flushCallback_log_inv w1 Hl1 Hb1) as [Hl2 Hb2].
  split; [|done]. unfold timer_inv.
  destruct (flushCallback_vars w1) as (_ & _ & _ & _ & _ & _ & _ & _ & -> & _ & -> & _).
  done.
Qed.

Lemma turn_inv e w : inv w → inv (turn e w).
Proof.
  intros H. destruct e as [j|id|id p|h|]; cbn [turn].
  - by apply startListening_inv.
  - case_bool_decide; [by apply startListening_resumed_inv|done].
  - case_bool_decide; [by apply onProgress_inv|done].
  - case_bool_decide; [by apply dequeue_fire_inv|done].
  - by apply onBeforeUnmount_inv.
Qed.

Lemma run_app es fs w : run (es ++ fs) w = run fs (run es w).
Proof. unfold run. apply foldl_app. Qed.

Lemma run_inv es w : inv w → inv (run es w).
Proof.
  revert w. induction es as [|e es IH]; intros w H; [done|].
  apply (IH (turn e w)). by apply turn_inv.
Qed.

Lemma reachable_inv e es : inv (run es (init e)).
Proof. apply run_inv, init_inv. Qed.

(** ** The engine stays the same *)

Lemma onProgress_engine p w : engine (host (onProgress p w)) = engine (host w).
Proof.
  script. destruct w as [c t d fh pu pc pi pt px pd hst], p as [a b e f].
  fields. destruct a, b, e, (truthy f), fh; done.
Qed.

Lemma ingestAll_engine ps w : engine (host (ingestAll ps w)) = engine (host w).
Proof.
  revert w. induction ps as [|p ps IH]; intros w; [done|].
  by rewrite ingestAll_cons, IH, onProgress_engine.
Qed.

Lemma flushCallback_engine w : engine (host (flushCallback w)) = engine (host w).
Proof.
  unfold flushCallback, andThen. rewrite flush_engine. by destruct w.
Qed.

Lemma turn_engine e w : engine (host (turn e w)) = engine (host w).
Proof.
  destruct e as [j|id|id p|h|]; cbn [turn].
  - script. destruct w as [c t d fh pu pc pi pt px pd hst]. fields.
    destruct fh, pu; done.
  - case_bool_decide; [|done]. by destruct w.
  - case_bool_decide; [|done]. apply onProgress_engine.
  - case_bool_decide; [|done]. unfold andThen.
    rewrite flushCallback_engine. by destruct w.
  - script. destruct w as [c t d fh pu pc pi pt px pd hst]. fields.
    destruct fh, pu; done.
Qed.

Lemma run_engine es w : engine (host (run es w)) = engine (host w).
Proof.
  revert w. induction es as [|e es IH]; intros w; [done|].
  change (run (e :: es) w) with (run es (turn e w)).
  by rewrite IH, turn_engine.
Qed.

(** ** Windows *)

Lemma ingestAll_armed ps h w :
  flushHandle w = Some h →
  flushHandle (ingestAll ps w) = Some h ∧
  timers (host (ingestAll ps w)) = timers (host w).
Proof.
  revert w. induction ps as [|p ps IH]; intros w Hf; [done|].
  rewrite ingestAll_cons.
  destruct (onProgress_vars p w)
    as (_ & _ & _ & _ & _ & _ & _ & _ & _ & Ef & Et & _).
  rewrite Hf in Ef, Et. cbn [default] in Ef.
  destruct (IH _ Ef) as [-> ->]. done.
Qed.

Lemma ingestAll_arms ps w :
  flushHandle w = None → ps ≠ [] →
  flushHandle (ingestAll ps w) = Some (nextTimer (host w)) ∧
  timers (host (ingestAll ps w)) = timers (host w) ++ [nextTimer (host w)].
Proof.
  intros Hf Hps. destruct ps as [|p ps]; [done|].
  rewrite ingestAll_cons.
  destruct (onProgress_vars p w)
    as (_ & _ & _ & _ & _ & _ & _ & _ & _ & Ef & Et & _).
  rewrite Hf in Ef, Et. cbn [default] in Ef.
  destruct (ingestAll_armed ps _ _ Ef) as [-> ->]. done.
Qed.

Lemma ingestAll_inv ps w : inv w → inv (ingestAll ps w).
Proof.
  revert w. induction ps as [|p ps IH]; intros w H; [done|].
  rewrite ingestAll_cons. by apply IH, onProgress_inv.
Qed.

Lemma timer_inv_at_most_one w : timer_inv w → (length (timers (host w)) ≤ 1)%nat.
Proof. unfold timer_inv. intros ->. destruct (flushHandle w); cbn; lia. Qed.

Lemma overflows_dequeue h w : overflows (call (dequeueTimer h) w) = overflows w.
Proof. by destruct w. Qed.

(** The one outstanding timeout fires. *)
Lemma fire_vars h w :
  timers (host w) = [h] →
  let w' := turn (TimeoutFired h) w in
  total w' = default (total w) (pendingTotal w) ∧
  completed w' = default (completed w) (pendingCompleted w) + pendingIncrement w ∧
  details w' = (if overflows w then details w
                else match pendingDetails w with
                     | [] => details w
                     | _ => evict (details w ++ pendingDetails w)
                     end) ∧
  pendingTotal w' = None ∧ pendingCompleted w' = None ∧
  pendingIncrement w' = 0 ∧
  pendingDetails w' = (if overflows w then pendingDetails w else []) ∧
  pendingDetailIndex w' = pendingDetailIndex w ∧
  flushHandle w' = None ∧
  timers (host w') = [].
Proof.
  intros Ht. cbn [turn]. rewrite bool_decide_eq_true_2 by (rewrite Ht; by apply list_elem_of_singleton).
  unfold andThen.
  destruct (flushCallback_vars (call (dequeueTimer h) w))
    as (-> & -> & -> & -> & -> & -> & -> & -> & -> & _ & -> & _).
  rewrite overflows_dequeue.
  destruct w as [c t d fh pu pc pi pt px pd hst]. script. fields.
  rewrite Ht, filter_ne_singleton. done.
Qed.

Lemma no_timer_no_fire h w :
  timers (host w) = [] → turn (TimeoutFired h) w = w.
Proof.
  intros Ht. cbn [turn]. rewrite bool_decide_eq_false_2; [done|].
  rewrite Ht. apply not_elem_of_nil.
Qed.

Lemma turn_idle_inv e w :
  e ≠ BeforeUnmount → idle_inv w → idle_inv (turn e w).
Proof.
  intros He Hw. unfold idle_inv.
  destruct e as [j|id|id p|h|]; cbn [turn]; [| | | |done].
  - intros _.
    destruct (startListening_vars j w)
      as (_ & _ & _ & -> & -> & -> & _ & -> & _). by repeat split; [left].
  - case_bool_decide; [|done]. destruct w; done.
  - case_bool_decide; [|done].
    destruct (onProgress_vars p w)
      as (_ & _ & _ & _ & _ & _ & _ & _ & _ & -> & _). done.
  - case_bool_decide; [|done]. intros _. unfold andThen.
    set (w1 := call (dequeueTimer h) w).
    pose proof (flushCallback_engine w1) as Ee.
    destruct (flushCallback_vars w1) as (_ & _ & _ & -> & -> & -> & Ep & _).
    do 3 (split; [done|]). unfold overflows at 1. rewrite Ep, Ee.
    fold (overflows w1). destruct (overflows w1) eqn:Eo; [by right|by left].
Qed.

Lemma run_idle_inv es w :
  BeforeUnmount ∉ es → idle_inv w → idle_inv (run es w).
Proof.
  revert w. induction es as [|e es IH]; intros w Hes Hw; [done|].
  apply not_elem_of_cons in Hes as [He Hes].
  apply (IH (turn e w)); [done|]. apply turn_idle_inv; [congruence|done].
Qed.

Lemma init_idle e : idle_inv (init e).
Proof. intros _. by repeat split; [left]. Qed.

(** A flush that has thrown throws again: nothing moves. *)
Lemma flushCallback_stuck w :
  flushHandle w = None → pendingCompleted w = None →
  pendingIncrement w = 0 → pendingTotal w = None → overflows w = true →
  flushCallback w = w.
Proof.
  unfold overflows, flushCallback. script. unfold pushSpread.
  destruct w as [c t d fh pu pc pi pt px pd hst]. fields.
  intros -> -> -> -> Ho. fields. change (0 =? 0) with true. fields.
  destruct pd as [|l pd]; [done|].
  replace (Z.of_nat (length (l :: pd)) =? 0) with false
    by (symmetry; apply Z.eqb_neq; cbn [length]; lia).
  by rewrite Ho.
Qed.

Lemma truthy_Some text : text ≠ "" → truthy (Some text) = true.
Proof. intros H. cbn. by rewrite bool_decide_eq_false_2. Qed.

Lemma numberLines_lines idx n text :
  text ≠ "" → length (numberLines idx (replicate n (line text))) = n.
Proof.
  intros Ht. revert idx. induction n as [|n IH]; intros idx; [done|].
  cbn [replicate numberLines line Payload.detail].
  rewrite truthy_Some by done. cbn [length]. by rewrite IH.
Qed.

(** C1: in every world the event loop can reach, the outstanding timeouts
    are exactly the one [flushHandle] names, so there is never more than
    one, also after each further handler call.  When no flush is scheduled
    and a non-empty sequence of payloads is delivered, the handler calls
    leave exactly one timeout outstanding and do not touch the displayed
    values; when that timeout fires, the total and the completed count
    become the merge of the whole window onto the earlier ones (last total,
    last absolute progress plus the sum of the increments), the pending
    numbers are cleared, and no timeout is left, so that no second flush
    can run before a further payload arrives.  The lines are committed, in
    arrival order, and the queue is cleared when the queue has no more
    lines than the engine passes as arguments of one call.  When it has
    more, the push throws: no line is committed, the queue stays as it is,
    and flushing again changes nothing.  Accordingly, as long as the panel
    has not been unmounted, with no flush scheduled no number is pending,
    and no line either unless the queue has outgrown the engine. *)
Theorem C1_window_flush (e : Engine) (es : list Event) (ps : list Payload.t) :
  let w := run es (init e) in
  timer_inv w ∧
  (∀ k, (length (timers (host (ingestAll (take k ps) w))) ≤ 1)%nat) ∧
  (BeforeUnmount ∉ es → flushHandle w = None →
   pendingCompleted w = None ∧ pendingIncrement w = 0 ∧
   pendingTotal w = None ∧
   (pendingDetails w = [] ∨ overflows w = true)) ∧
  (flushHandle w = None → ps ≠ [] →
   let w' := ingestAll ps w in
   let queue := pendingDetails w ++ numberLines (pendingDetailIndex w) ps in
   ∃ h, flushHandle w' = Some h ∧ timers (host w') = [h] ∧
     completed w' = completed w ∧ total w' = total w ∧
     details w' = details w ∧
     let w'' := turn (TimeoutFired h) w' in
     total w'' =
       default (total w) (lastWrite (pendingTotal w) (Payload.total <$> ps)) ∧
     completed w'' =
       default (completed w)
         (lastWrite (pendingCompleted w) (Payload.progress <$> ps))
       + (pendingIncrement w + sumIncrements ps) ∧
     pendingCompleted w'' = None ∧ pendingIncrement w'' = 0 ∧
     pendingTotal w'' = None ∧
     flushHandle w'' = None ∧ timers (host w'') = [] ∧
     (∀ h', turn (TimeoutFired h') w'' = w'') ∧
     (Z.of_nat (length queue) ≤ maxArguments e →
      details w'' =
        match queue with
        | [] => details w
        | lines => evict (details w ++ lines)
        end ∧
      pendingDetails w'' = []) ∧
     (maxArguments e < Z.of_nat (length queue) →
      details w'' = details w ∧ pendingDetails w'' = queue ∧
      flushCallback w'' = w'')).
Proof.
  intros w. pose proof (reachable_inv e es) as Hinv. fold w in Hinv.
  split; [apply Hinv|]. split.
  { intros k. apply timer_inv_at_most_one, ingestAll_inv, Hinv. }
  split.
  { intros Hes. by apply run_idle_inv; [|apply init_idle]. }
  intros Hf Hps w' queue.
  destruct Hinv as (Ht & _). unfold timer_inv in Ht. rewrite Hf in Ht.
  destruct (ingestAll_arms ps w Hf Hps) as [Ef Et]. rewrite Ht in Et.
  exists (nextTimer (host w)). fold w' in Ef, Et.
  destruct (ingestAll_vars ps w)
    as (Ec & Ei & Eto & _ & Ed & Eco & Et' & Ede & _).
  fold w' queue in Ec, Ei, Eto, Ed, Eco, Et', Ede.
  assert (Ee : engine (host w') = e).
  { unfold w', w. by rewrite ingestAll_engine, run_engine. }
  split; [done|]. split; [done|]. do 3 (split; [done|]).
  intros w''.
  destruct (fire_vars _ w' Et)
    as (Ft & Fc & Fd & Fpt & Fpc & Fpi & Fpd & _ & Ffh & Ftm).
  fold w'' in Ft, Fc, Fd, Fpt, Fpc, Fpi, Fpd, Ffh, Ftm.
  unfold overflows in Fd, Fpd. rewrite Ee, Ed in Fd, Fpd. rewrite Ede in Fd.
  rewrite Ft, Fc, Ec, Ei, Eto, Eco, Et'.
  do 7 (split; [done|]).
  split; [intros h'; by apply no_timer_no_fire|].
  split.
  - intros Hfit.
    destruct (Z.gtb_spec (Z.of_nat (length queue)) (maxArguments e)); [lia|].
    rewrite Fd, Fpd. split; [|done]. by destruct queue.
  - intros Hover.
    destruct (Z.gtb_spec (Z.of_nat (length queue)) (maxArguments e)); [|lia].
    split; [done|]. split; [done|].
    apply flushCallback_stuck; try done.
    unfold overflows. rewrite Fpd.
    replace (engine (host w'')) with e.
    + apply Z.gtb_lt. lia.
    + unfold w''. by rewrite turn_engine.
Qed.

Lemma C1_witness :
  let e := javaScriptCore in
  let p := Payload.Make (Some 4) (Some 1) (Some 9) (Some "clip") in
  let big := replicate (Z.to_nat 65537) (line "x") in
  let w := run [] (init e) in
  ((BeforeUnmount ∉ []) ∧ flushHandle w = None ∧ [p; p] ≠ [] ∧ big ≠ [] ∧
   Z.of_nat (length (pendingDetails w ++ numberLines (pendingDetailIndex w) [p; p]))
     ≤ maxArguments e ∧
   maxArguments e
     < Z.of_nat (length (pendingDetails w ++ numberLines (pendingDetailIndex w) big))) ∧
  (∃ h, flushHandle (ingestAll [p; p] w) = Some h ∧
        completed (turn (TimeoutFired h) (ingestAll [p; p] w)) = 6 ∧
        details (turn (TimeoutFired h) (ingestAll [p; p] w))
          = ["[1] clip"; "[2] clip"]) ∧
  (∃ h, flushHandle (ingestAll big w) = Some h ∧
        details (turn (TimeoutFired h) (ingestAll big w)) = [] ∧
        pendingDetails (turn (TimeoutFired h) (ingestAll big w))
          = numberLines 0 big ∧
        flushHandle (turn (TimeoutFired h) (ingestAll big w)) = None).
Proof.
  intros e p big w.
  assert (Hes : BeforeUnmount ∉ []) by apply not_elem_of_nil.
  assert (Hf : flushHandle w = None) by reflexivity.
  assert (Hps : [p; p] ≠ []) by discriminate.
  assert (Hlen : length big = Z.to_nat 65537) by apply length_replicate.
  assert (Hbig : big ≠ []).
  { intros E. rewrite E in Hlen. cbn [length] in Hlen. lia. }
  assert (Hfit : Z.of_nat (length (pendingDetails w
                   ++ numberLines (pendingDetailIndex w) [p; p]))
                 ≤ maxArguments e) by (vm_compute; discriminate).
  assert (Hover : maxArguments e
                  < Z.of_nat (length (pendingDetails w
                      ++ numberLines (pendingDetailIndex w) big))).
  { change (pendingDetails w) with (@nil string). cbn [app].
    unfold big. rewrite numberLines_lines by done.
    change (maxArguments e) with 65536. lia. }
  split; [repeat split; assumption|].
  destruct (C1_window_flush e [] [p; p]) as (_ & _ & _ & H).
  destruct (H Hf Hps) as (h & Eh & _ & _ & _ & _ & _ & Ec & _ & _ & _ & _ & _ & _ & Hd & _).
  destruct (Hd Hfit) as [Ed _].
  split.
  { exists h. split; [exact Eh|]. split; [exact Ec|exact Ed]. }
  destruct (C1_window_flush e [] big) as (_ & _ & _ & H').
  destruct (H' Hf Hbig)
    as (h' & Eh' & _ & _ & _ & _ & _ & _ & _ & _ & _ & Ef & _ & _ & _ & Ho).
  destruct (Ho Hover) as (Ed' & Ep' & _).
  exists h'. split; [exact Eh'|]. split; [exact Ed'|]. split; [exact Ep'|exact Ef].
Defined.

(** ** Sequence numbers *)

(** Eviction keeps the last lines: anything up to 10000 lines long at the
    end of the log stays where it is. *)
Lemma evict_keeps_tail log tail :
  Z.of_nat (length tail) ≤ 10000 →
  ∃ older, evict (log ++ tail) = older ++ tail.
Proof.
  intros Hlen.
  destruct (Z.le_gt_cases (Z.of_nat (length (log ++ tail))) 10500) as [H|H].
  - exists log. by apply evict_small.
  - apply evict_large in H as [-> _]. rewrite length_app.
    eexists. apply drop_app_le. lia.
Qed.

Lemma evict_suffix log : evict log `suffix_of` log.
Proof. destruct (evict_drop log) as (k & -> & _). apply suffix_drop. Qed.

Lemma turn_counter e w :
  (∀ j, e ≠ JobIdChanged j) →
  (pendingDetailIndex w ≤ pendingDetailIndex (turn e w))%N.
Proof.
  intros He. destruct e as [j|id|id p|h|]; cbn [turn].
  - by destruct (He j).
  - case_bool_decide; [|done]. destruct w; cbn. lia.
  - case_bool_decide; [|done].
    destruct (onProgress_vars p w) as (_ & _ & _ & -> & _).
    destruct (truthy _); lia.
  - case_bool_decide; [|done]. unfold andThen.
    destruct (flushCallback_vars (call (dequeueTimer h) w))
      as (_ & _ & _ & _ & _ & _ & _ & -> & _).
    destruct w; cbn. lia.
  - unfold onBeforeUnmount, cancelFlushTimer, call, andThen.
    destruct w as [c t d [h|] [u|] pc pi pt px pd hst]; cbn; lia.
Qed.

(** C2: a payload that carries a line takes the next value of the counter
    when it arrives, and its line is queued under that number.  Two
    payloads carrying the lines [a] then [b], delivered before a flush,
    are queued as the lines numbered [n] and [n + 1], in this order, where
    [n] is one more than the counter before the first; the flush leaves
    them at the end of the committed log when the queue has no more lines
    than the engine passes as arguments of one call, and when it has more
    the push throws and commits nothing: the two lines stay at the end of
    the queue under their numbers.  A flush leaves the counter alone, and
    the log followed by the queue after it is a suffix of the log followed
    by the queue before it, so eviction and coalescing renumber nothing.
    Batching does not matter: whether a flush runs between two sequences
    of payloads or not, the counter ends at the same value, and the log
    with the queued lines in the first case is a suffix of the one in the
    second.  In every world the event loop can reach, the committed and
    the queued lines are numbered consecutively up to the counter; and no
    event other than a change of the job id ever lowers the counter. *)
Theorem C2_sequence_numbers :
  (∀ w p text,
     Payload.detail p = Some text → text ≠ "" →
     let w' := onProgress p w in
     pendingDetailIndex w' = (pendingDetailIndex w + 1)%N ∧
     pendingDetails w' =
       pendingDetails w ++ [numbered (pendingDetailIndex w + 1) text]) ∧
  (∀ w p q a b,
     Payload.detail p = Some a → a ≠ "" →
     Payload.detail q = Some b → b ≠ "" →
     let n := (pendingDetailIndex w + 1)%N in
     let queue := pendingDetails w ++ [numbered n a; numbered (n + 1) b] in
     let w' := flushCallback (onProgress q (onProgress p w)) in
     pendingDetailIndex w' = (n + 1)%N ∧
     (Z.of_nat (length queue) ≤ maxArguments (engine (host w)) →
      pendingDetails w' = [] ∧
      ∃ older, details w' = older ++ [numbered n a; numbered (n + 1) b]) ∧
     (maxArguments (engine (host w)) < Z.of_nat (length queue) →
      details w' = details w ∧ pendingDetails w' = queue)) ∧
  (∀ w,
     pendingDetailIndex (flushCallback w) = pendingDetailIndex w ∧
     details (flushCallback w) ++ pendingDetails (flushCallback w)
       `suffix_of` details w ++ pendingDetails w) ∧
  (∀ w ps qs,
     let flushed := ingestAll qs (flushCallback (ingestAll ps w)) in
     let whole := ingestAll (ps ++ qs) w in
     pendingDetailIndex flushed = pendingDetailIndex whole ∧
     details flushed ++ pendingDetails flushed
       `suffix_of` details whole ++ pendingDetails whole) ∧
  (∀ e es, log_inv (run es (init e))) ∧
  (∀ e w, (∀ j, e ≠ JobIdChanged j) →
     (pendingDetailIndex w ≤ pendingDetailIndex (turn e w))%N).
Proof.
  assert (F : ∀ w,
     pendingDetailIndex (flushCallback w) = pendingDetailIndex w ∧
     details (flushCallback w) ++ pendingDetails (flushCallback w)
       `suffix_of` details w ++ pendingDetails w).
  { intros w.
    destruct (flushCallback_vars w) as (_ & _ & -> & _ & _ & _ & -> & -> & _).
    split; [done|].
    destruct (overflows w); [done|]. rewrite app_nil_r.
    destruct (pendingDetails w).
    + by rewrite app_nil_r.
    + apply evict_suffix. }
  split; [|split; [|split; [exact F|split; [|split]]]].
  - intros w p text Hd Ht w'.
    destruct (onProgress_vars p w) as (_ & _ & _ & Ex & Ep & _).
    fold w' in Ex, Ep. rewrite Ex, Ep, Hd, truthy_Some by done. done.
  - intros w p q a b Hp Ha Hq Hb n queue w'.
    destruct (flushCallback_vars (onProgress q (onProgress p w)))
      as (_ & _ & Ed & _ & _ & _ & Epd & Ex & _).
    fold w' in Ed, Epd, Ex. rewrite Ed, Epd, Ex. clear Ed Epd Ex.
    unfold overflows. rewrite !onProgress_engine.
    destruct (onProgress_vars q (onProgress p w))
      as (_ & _ & _ & -> & -> & _ & _ & -> & _).
    destruct (onProgress_vars p w)
      as (_ & _ & _ & -> & -> & _ & _ & -> & _).
    rewrite Hp, Hq, !truthy_Some by done. cbn [splice]. fold n.
    rewrite <- !app_assoc. cbn [app]. fold queue.
    split; [done|]. split.
    + intros Hfit.
      destruct (Z.gtb_spec (Z.of_nat (length queue))
                  (maxArguments (engine (host w)))); [lia|].
      split; [done|].
      destruct queue eqn:E.
      { subst queue. by destruct (pendingDetails w). }
      rewrite <- E. subst queue. rewrite app_assoc.
      apply evict_keeps_tail. cbn. lia.
    + intros Hover.
      destruct (Z.gtb_spec (Z.of_nat (length queue))
                  (maxArguments (engine (host w)))); [done|lia].
  - intros w ps qs flushed whole. subst flushed whole.
    rewrite ingestAll_app. set (w1 := ingestAll ps w).
    destruct (F w1) as [Fx Fd].
    destruct (ingestAll_vars qs (flushCallback w1))
      as (_ & _ & _ & -> & -> & _ & _ & -> & _).
    destruct (ingestAll_vars qs w1)
      as (_ & _ & _ & -> & -> & _ & _ & -> & _).
    rewrite Fx. split; [done|].
    rewrite !app_assoc. by apply suffix_app.
  - intros e es. apply reachable_inv.
  - apply turn_counter.
Qed.

Lemma C2_witness :
  let e := javaScriptCore in
  let p := Payload.Make None None None (Some "a") in
  let q := Payload.Make None (Some 1) None (Some "b") in
  let w := flushCallback (onProgress q (onProgress p (init e))) in
  let full := ingestAll (replicate (Z.to_nat 65535) (line "x")) (init e) in
  let n := (pendingDetailIndex full + 1)%N in
  let stuck := flushCallback (onProgress q (onProgress p full)) in
  (Payload.detail p = Some "a" ∧ "a" ≠ "" ∧
   Payload.detail q = Some "b" ∧ "b" ≠ "") ∧
  pendingDetailIndex w = 2%N ∧
  (∃ older, details w = older ++ ["[1] a"; "[2] b"]) ∧
  maxArguments (engine (host full))
    < Z.of_nat (length (pendingDetails full
                        ++ [numbered n "a"; numbered (n + 1) "b"])) ∧
  details stuck = details full ∧
  pendingDetails stuck
    = pendingDetails full ++ [numbered n "a"; numbered (n + 1) "b"] ∧
  (∀ j, BeforeUnmount ≠ JobIdChanged j) ∧
  (pendingDetailIndex w ≤ pendingDetailIndex (turn BeforeUnmount w))%N.
Proof.
  intros e p q w full n stuck.
  assert (Hp : Payload.detail p = Some "a") by reflexivity.
  assert (Hq : Payload.detail q = Some "b") by reflexivity.
  assert (Ha : "a" ≠ "") by discriminate.
  assert (Hb : "b" ≠ "") by discriminate.
  assert (He : ∀ j, BeforeUnmount ≠ JobIdChanged j) by discriminate.
  assert (Hfit : Z.of_nat (length (pendingDetails (init e)
                   ++ [numbered 1 "a"; numbered (1 + 1) "b"]))
                 ≤ maxArguments (engine (host (init e))))
    by (vm_compute; discriminate).
  assert (Hover : maxArguments (engine (host full))
                  < Z.of_nat (length (pendingDetails full
                      ++ [numbered n "a"; numbered (n + 1) "b"]))).
  { unfold full at 1. rewrite ingestAll_engine.
    change (maxArguments (engine (host (init e)))) with 65536.
    destruct (ingestAll_vars (replicate (Z.to_nat 65535) (line "x")) (init e))
      as (_ & _ & _ & _ & Ep & _).
    fold full in Ep. rewrite length_app, Ep.
    change (pendingDetails (init e)) with (@nil string). cbn [app length].
    rewrite numberLines_lines by done. lia. }
  destruct C2_sequence_numbers as (_ & H2 & _ & _ & _ & H5).
  destruct (H2 (init e) p q "a" "b" Hp Ha Hq Hb) as (Ex & Hf & _).
  destruct (Hf Hfit) as [_ Ed].
  destruct (H2 full p q "a" "b" Hp Ha Hq Hb) as (_ & _ & Ho).
  destruct (Ho Hover) as [Ed' Ep'].
  split; [repeat split; assumption|]. split; [exact Ex|]. split; [exact Ed|].
  split; [exact Hover|]. split; [exact Ed'|]. split; [exact Ep'|].
  split; [exact He|]. exact (H5 BeforeUnmount w He).
Defined.

(** ** The bound on the log *)

Lemma run_emitted id ps w :
  id ∈ (listeners (host w)).*1 → run (Emitted id <$> ps) w = ingestAll ps w.
Proof.
  revert w. induction ps as [|p ps IH]; intros w Hid; [done|].
  rewrite ingestAll_cons, <- IH.
  - cbn [fmap list_fmap run foldl turn]. by rewrite bool_decide_eq_true_2.
  - destruct (onProgress_vars p w)
      as (_ & _ & _ & _ & _ & _ & _ & _ & _ & _ & _ & -> & _). done.
Qed.

(** The world at the end of a window of [n] lines on a fresh job, and the
    log after its flush. *)
Lemma burst_log e n :
  0 < n → n ≤ maxArguments e →
  let before := run (window n) (init e) in
  let after := run (burst n) (init e) in
  details before = [] ∧
  Z.of_nat (length (pendingDetails before)) = n ∧
  ∃ log, Z.of_nat (length log) = n ∧ details after = evict log.
Proof.
  intros Hn Hfit before after.
  set (w0 := run [JobIdChanged (JobNumber 1); ListenResolved 1] (init e)).
  assert (before = ingestAll (replicate (Z.to_nat n) (line "x")) w0) as Eb.
  { unfold before, window. rewrite run_app. apply run_emitted.
    apply list_elem_of_singleton. reflexivity. }
  assert (replicate (Z.to_nat n) (line "x") ≠ []) as Hps.
  { intros E. apply (f_equal length) in E. rewrite length_replicate in E.
    cbn in E. lia. }
  destruct (ingestAll_vars (replicate (Z.to_nat n) (line "x")) w0)
    as (_ & _ & _ & _ & Ep & _ & _ & Ed & _).
  destruct (ingestAll_arms (replicate (Z.to_nat n) (line "x")) w0 eq_refl Hps)
    as [_ Et].
  rewrite <- Eb in Ep, Ed, Et.
  change (pendingDetails w0) with (@nil string) in Ep.
  change (details w0) with (@nil string) in Ed.
  change (timers (host w0) ++ [nextTimer (host w0)]) with [1%nat] in Et.
  cbn [app] in Ep.
  assert (Z.of_nat (length (pendingDetails before)) = n) as El.
  { rewrite Ep, numberLines_lines by done. lia. }
  split; [done|]. split; [done|].
  exists (pendingDetails before). split; [done|].
  unfold after, burst. rewrite run_app. fold before.
  change (run [TimeoutFired 1] before) with (turn (TimeoutFired 1) before).
  destruct (fire_vars 1 before Et) as (_ & _ & -> & _).
  unfold overflows.
  replace (engine (host before)) with e
    by (unfold before; by rewrite run_engine).
  destruct (Z.gtb_spec (Z.of_nat (length (pendingDetails before)))
              (maxArguments e)); [lia|].
  rewrite Ed. destruct (pendingDetails before); [cbn in El; lia|done].
Qed.

(** C3, as stated, fails: after a window of 10001 lines on a fresh job the
    flush has appended more than [L_max] lines, and the committed log
    holds all 10001 of them, not [L_max].  Reading the cap as the
    threshold of the code, 10500, does not help: after a window of 10501
    lines the log holds 10000 lines, not 10500.  Both windows are far
    below what the engine passes as arguments. *)
Lemma C3_counterexample :
  let before := run (window 10001) (init javaScriptCore) in
  let after := run (burst 10001) (init javaScriptCore) in
  let after' := run (burst 10501) (init javaScriptCore) in
  L_max < Z.of_nat (length (details before ++ pendingDetails before)) ∧
  Z.of_nat (length (details after)) = 10001 ∧
  Z.of_nat (length (details after)) ≠ L_max ∧
  Z.of_nat (length (details after')) = 10000 ∧
  Z.of_nat (length (details after')) ≠ 10500.
Proof.
  cbv zeta. unfold L_max.
  destruct (burst_log javaScriptCore 10001)
    as (Ed & Ep & log & Hlog & ->); [lia|cbn; lia|].
  destruct (burst_log javaScriptCore 10501)
    as (_ & _ & log' & Hlog' & ->); [lia|cbn; lia|].
  rewrite Ed. cbn [app]. rewrite Ep, evict_small by lia.
  destruct (evict_large log') as [_ ->]; [lia|]. lia.
Qed.

(** C3, amended: a flush that has lines to append, no more of them than
    the engine passes as arguments of one call, and ends up with more than
    10500 lines keeps exactly the last 10000 of them, unchanged and in
    order; one that ends up with at most 10500 lines evicts nothing; a
    flush with no lines to append leaves the log alone.  In every world the
    event loop can reach, before and after a flush, the committed log has
    at most 10500 lines and its lines are numbered consecutively. *)
Theorem C3_bounded_log :
  (∀ w, pendingDetails w ≠ [] →
     Z.of_nat (length (pendingDetails w)) ≤ maxArguments (engine (host w)) →
     let log := details w ++ pendingDetails w in
     let w' := flushCallback w in
     (10500 < Z.of_nat (length log) →
      details w' = drop (Z.to_nat (Z.of_nat (length log) - L_max)) log ∧
      Z.of_nat (length (details w')) = L_max) ∧
     (Z.of_nat (length log) ≤ 10500 → details w' = log)) ∧
  (∀ w, pendingDetails w = [] → details (flushCallback w) = details w) ∧
  (∀ e es,
     let w := run es (init e) in
     bounded_inv w ∧ log_inv w ∧
     bounded_inv (flushCallback w) ∧ log_inv (flushCallback w)).
Proof.
  split; [|split].
  - intros w Hp Hfit. cbv zeta.
    destruct (flushCallback_vars w) as (_ & _ & -> & _).
    unfold overflows.
    destruct (Z.gtb_spec (Z.of_nat (length (pendingDetails w)))
                (maxArguments (engine (host w)))); [lia|].
    destruct (pendingDetails w) eqn:E; [done|].
    rewrite <- E. split.
    + apply evict_large.
    + apply evict_small.
  - intros w Hp.
    destruct (flushCallback_vars w) as (_ & _ & -> & _).
    rewrite overflows_nil by done. by rewrite Hp.
  - intros e es w. destruct (reachable_inv e es) as (_ & Hl & Hb).
    fold w in Hl, Hb.
    destruct (flushCallback_log_inv w Hl Hb). done.
Qed.

Lemma C3_witness :
  let e := javaScriptCore in
  let big := set_pendingDetails (replicate (Z.to_nat 10501) "x") (init e) in
  let small := onProgress (line "x") (init e) in
  (pendingDetails big ≠ [] ∧
   Z.of_nat (length (pendingDetails big)) ≤ maxArguments (engine (host big)) ∧
   10500 < Z.of_nat (length (details big ++ pendingDetails big)) ∧
   Z.of_nat (length (details (flushCallback big))) = L_max) ∧
  (pendingDetails small ≠ [] ∧
   Z.of_nat (length (pendingDetails small)) ≤ maxArguments (engine (host small)) ∧
   Z.of_nat (length (details small ++ pendingDetails small)) ≤ 10500 ∧
   details (flushCallback small) = details small ++ pendingDetails small) ∧
  details (flushCallback (init e)) = details (init e).
Proof.
  intros e big small.
  destruct C3_bounded_log as (H1 & H2 & _).
  assert (Hl : length (details big ++ pendingDetails big) = Z.to_nat 10501)
    by apply length_replicate.
  assert (Hl' : length (pendingDetails big) = Z.to_nat 10501)
    by apply length_replicate.
  assert (Hb : pendingDetails big ≠ []).
  { intros E. rewrite E in Hl'. cbn [length] in Hl'. lia. }
  assert (Hbf : Z.of_nat (length (pendingDetails big))
                ≤ maxArguments (engine (host big))).
  { rewrite Hl'. change (maxArguments (engine (host big))) with 65536. lia. }
  assert (Hs : pendingDetails small ≠ []) by discriminate.
  assert (Hsf : Z.of_nat (length (pendingDetails small))
                ≤ maxArguments (engine (host small)))
    by (vm_compute; discriminate).
  assert (Hbl : 10500 < Z.of_nat (length (details big ++ pendingDetails big)))
    by (rewrite Hl; lia).
  assert (Hsl : Z.of_nat (length (details small ++ pendingDetails small)) ≤ 10500)
    by (vm_compute; discriminate).
  split; [|split].
  - split; [exact Hb|]. split; [exact Hbf|]. split; [exact Hbl|].
    exact (proj2 (proj1 (H1 big Hb Hbf) Hbl)).
  - split; [exact Hs|]. split; [exact Hsf|]. split; [exact Hsl|].
    exact (proj2 (H1 small Hs Hsf) Hsl).
  - exact (H2 (init e) eq_refl).
Defined.

(** ** Rebinding *)

(** C4: whatever events came before, the turn of the event loop in which
    the job id changes ends with the displayed progress at 0 of 0 and an
    empty log, the pending variables cleared and the counter back at 0, no
    flush handle and no timeout outstanding: what was pending is gone, and
    the cancelled flush never runs.  All of it happens within this one
    turn, before the [await]. *)
Theorem C4_rebind_resets (e : Engine) (es : list Event) (jobId : JobId) :
  let w := turn (JobIdChanged jobId) (run es (init e)) in
  completed w = 0 ∧ total w = 0 ∧ details w = [] ∧
  pendingCompleted w = None ∧ pendingIncrement w = 0 ∧
  pendingTotal w = None ∧ pendingDetails w = [] ∧
  pendingDetailIndex w = 0%N ∧
  flushHandle w = None ∧ timers (host w) = [] ∧
  (∀ h, turn (TimeoutFired h) w = w).
Proof.
  intros w.
  assert (inv w) as (Ht & _) by apply turn_inv, reachable_inv.
  destruct (startListening_vars jobId (run es (init e)))
    as (Ec & Eto & Ed & Epc & Epi & Ept & Ex & Epd & Ef & _).
  change (startListening jobId (run es (init e))) with w in *.
  unfold timer_inv in Ht. rewrite Ef in Ht.
  do 10 (split; [done|]).
  intros h. by apply no_timer_no_fire.
Qed.

(** ** Absolute progress and increments *)

(** C5: a flush that finds both an absolute progress value and an
    accumulated increment pending writes the absolute value and adds the
    increment on top of it.  From any world with no increment pending yet,
    whatever is displayed, a payload with [progress: 10], then one with
    [progressInc: 2], then the flush, display 12. *)
Theorem C5_absolute_then_increment :
  (∀ w a,
     pendingCompleted w = Some a →
     completed (flushCallback w) = a + pendingIncrement w) ∧
  (∀ w,
     pendingIncrement w = 0 →
     completed
       (flushCallback
          (onProgress (Payload.Make None (Some 2) None None)
             (onProgress (Payload.Make (Some 10) None None None) w))) = 12).
Proof.
  split.
  - intros w a Ha.
    destruct (flushCallback_vars w) as (_ & -> & _). by rewrite Ha.
  - intros w Hi.
    destruct (flushCallback_vars
                (onProgress (Payload.Make None (Some 2) None None)
                   (onProgress (Payload.Make (Some 10) None None None) w)))
      as (_ & -> & _).
    destruct (onProgress_vars (Payload.Make None (Some 2) None None)
                (onProgress (Payload.Make (Some 10) None None None) w))
      as (-> & -> & _).
    destruct (onProgress_vars (Payload.Make (Some 10) None None None) w)
      as (-> & -> & _).
    cbn. lia.
Qed.

Lemma C5_witness :
  let w := set_completed 40 (set_pendingCompleted (Some 7) (init javaScriptCore)) in
  (pendingCompleted w = Some 7 ∧ completed (flushCallback w) = 7) ∧
  (pendingIncrement w = 0 ∧
   completed
     (flushCallback
        (onProgress (Payload.Make None (Some 2) None None)
           (onProgress (Payload.Make (Some 10) None None None) w))) = 12).
Proof.
  intros w. destruct C5_absolute_then_increment as [H1 H2].
  split.
  - split; [reflexivity|]. exact (H1 w 7 eq_refl).
  - split; [reflexivity|]. exact (H2 w eq_refl).
Defined.

Lemma sumIncrements_increments ps :
  sumIncrements ps = foldr Z.add 0 (increments ps).
Proof.
  induction ps as [|p ps IH]; [done|].
  unfold increments in *. cbn [sumIncrements foldr omap list_omap].
  change (foldr _ 0 ps) with (sumIncrements ps). rewrite IH.
  destruct (Payload.progressInc p); cbn; lia.
Qed.

Lemma lastWrite_none old xs :
  Forall (λ x, x = None) xs → lastWrite old xs = old.
Proof.
  revert old. induction xs as [|x xs IH]; intros old H; [done|].
  inversion H as [|? ? -> Hxs]; subst. cbn. by apply IH.
Qed.

(** C6: when no absolute progress is pending and none arrives in the
    window, the flush raises the displayed count by the pending increment
    plus the sum of the increments of the window; from a world with no
    increment pending that is exactly the sum of the window's increments.
    Increments 3 and 4 raise the count by exactly 7. *)
Theorem C6_increments_accumulate :
  (∀ w ps,
     pendingCompleted w = None →
     Forall (λ p, Payload.progress p = None) ps →
     completed (flushCallback (ingestAll ps w))
     = completed w + (pendingIncrement w + foldr Z.add 0 (increments ps))) ∧
  (∀ w ps,
     pendingCompleted w = None → pendingIncrement w = 0 →
     Forall (λ p, Payload.progress p = None) ps →
     completed (flushCallback (ingestAll ps w))
     = completed w + foldr Z.add 0 (increments ps)) ∧
  (∀ w,
     pendingCompleted w = None → pendingIncrement w = 0 →
     completed
       (flushCallback
          (onProgress (Payload.Make None (Some 4) None None)
             (onProgress (Payload.Make None (Some 3) None None) w)))
     = completed w + 7).
Proof.
  assert (G : ∀ w ps,
     pendingCompleted w = None →
     Forall (λ p, Payload.progress p = None) ps →
     completed (flushCallback (ingestAll ps w))
     = completed w + (pendingIncrement w + foldr Z.add 0 (increments ps))).
  { intros w ps Hc Hps.
    destruct (flushCallback_vars (ingestAll ps w)) as (_ & -> & _).
    destruct (ingestAll_vars ps w) as (-> & -> & _ & _ & _ & -> & _).
    rewrite lastWrite_none, Hc, sumIncrements_increments; [done|].
    by apply Forall_fmap. }
  split; [exact G|]. split.
  - intros w ps Hc Hi Hps. rewrite G, Hi by done. lia.
  - intros w Hc Hi.
    change (onProgress ?q (onProgress ?p w)) with (ingestAll [p; q] w).
    rewrite G, Hi; [done|done|]. by repeat constructor.
Qed.

Lemma C6_witness :
  let w := set_completed 5 (init javaScriptCore) in
  let ps := [Payload.Make None (Some 3) None None;
             Payload.Make None None (Some 20) (Some "x");
             Payload.Make None (Some 4) None None] in
  pendingCompleted w = None ∧ pendingIncrement w = 0 ∧
  Forall (λ p, Payload.progress p = None) ps ∧
  completed (flushCallback (ingestAll ps w)) = 12 ∧
  completed
    (flushCallback
       (onProgress (Payload.Make None (Some 4) None None)
          (onProgress (Payload.Make None (Some 3) None None) w))) = 12.
Proof.
  intros w ps. destruct C6_increments_accumulate as (_ & H2 & H3).
  assert (Hps : Forall (λ p, Payload.progress p = None) ps)
    by (repeat constructor).
  split; [reflexivity|]. split; [reflexivity|]. split; [exact Hps|].
  split.
  - exact (H2 w ps eq_refl eq_refl Hps).
  - exact (H3 w eq_refl eq_refl).
Defined.

(** ** The empty payload *)

(** C7, as stated, fails: in the initial world no flush is scheduled; the
    handler, called with the empty payload, schedules one. *)
Lemma C7_counterexample :
  flushHandle (init javaScriptCore) = None ∧ timers (host (init javaScriptCore)) = [] ∧
  flushHandle (onProgress Payload.empty (init javaScriptCore)) = Some 1%nat ∧
  timers (host (onProgress Payload.empty (init javaScriptCore))) = [1%nat].
Proof. repeat split. Qed.

(** C7, amended: the empty payload changes neither the pending variables
    nor the displayed ones.  When a flush is already scheduled it changes
    nothing at all; when none is scheduled it schedules one, as every
    payload does. *)
Theorem C7_empty_payload (w : World) :
  let w' := onProgress Payload.empty w in
  (pendingCompleted w' = pendingCompleted w ∧
   pendingIncrement w' = pendingIncrement w ∧
   pendingTotal w' = pendingTotal w ∧
   pendingDetailIndex w' = pendingDetailIndex w ∧
   pendingDetails w' = pendingDetails w ∧
   completed w' = completed w ∧ total w' = total w ∧
   details w' = details w) ∧
  (∀ h, flushHandle w = Some h → w' = w) ∧
  (flushHandle w = None →
   flushHandle w' = Some (nextTimer (host w)) ∧
   timers (host w') = timers (host w) ++ [nextTimer (host w)]).
Proof.
  intros w'. subst w'. script.
  destruct w as [c t d fh pu pc pi pt px pd hst]. fields.
  split; [|split].
  - destruct fh; done.
  - intros h ->. done.
  - intros ->. done.
Qed.

Lemma C7_witness :
  let armed := onProgress (Payload.Make (Some 3) None None None) (init javaScriptCore) in
  (flushHandle armed = Some 1%nat ∧ onProgress Payload.empty armed = armed) ∧
  (flushHandle (init javaScriptCore) = None ∧
   flushHandle (onProgress Payload.empty (init javaScriptCore)) = Some 1%nat).
Proof.
  intros armed. split.
  - split; [reflexivity|].
    exact (proj1 (proj2 (C7_empty_payload armed)) 1%nat eq_refl).
  - split; [reflexivity|].
    exact (proj1 (proj2 (proj2 (C7_empty_payload (init javaScriptCore))) eq_refl)).
Defined.

(** ** Subscribing *)

(** C8, as stated, fails: bound to [null] from the initial world, the
    panel registers a listener, on the topic ["progress:null"]. *)
Lemma C8_counterexample :
  listeners (host (init javaScriptCore)) = [] ∧
  listeners (host (turn (JobIdChanged JobNull) (init javaScriptCore))) = [(1%nat, "progress:null")].
Proof. split; reflexivity. Qed.

(** C8, amended: [startListening] is defined on every job id, [null]
    included, and registers a listener every time: the listeners after the
    call are the earlier ones, without the one [progressUnlisten] stood
    for, and a new one on the topic of the job id, whose promise is
    pending.  For [null] that topic is ["progress:null"]. *)
Theorem C8_always_subscribes (w : World) (jobId : JobId) :
  let w' := turn (JobIdChanged jobId) w in
  listeners (host w') =
    match progressUnlisten w with
    | Some u => filter (λ x, x.1 ≠ u) (listeners (host w))
    | None => listeners (host w)
    end ++ [(nextListener (host w), topic jobId)] ∧
  resolving (host w') = resolving (host w) ++ [nextListener (host w)] ∧
  (nextListener (host w), topic jobId) ∈ listeners (host w') ∧
  topic JobNull = "progress:null".
Proof.
  intros w'.
  destruct (startListening_vars jobId w)
    as (_ & _ & _ & _ & _ & _ & _ & _ & _ & _ & _ & El & Er).
  change (startListening jobId w) with w' in *.
  rewrite El, Er. do 2 (split; [done|]). split; [|done].
  apply elem_of_app. right. by apply list_elem_of_singleton.
Qed.

(** ** The progress bar *)

(** C9: the progress bar never divides by zero.  With a total of 0 the
    bar is told it is indeterminate and its value is 0; with any other
    total it is determinate and its value is the quotient. *)
Theorem C9_no_division_by_zero (w : World) :
  linearProgress w ≠ DivisionByZero ∧
  (total w = 0 →
   indeterminate w = true ∧ linearProgress w = Finite 0%Q) ∧
  (total w ≠ 0 →
   indeterminate w = false ∧
   linearProgress w = Finite (inject_Z (completed w) / inject_Z (total w))%Q).
Proof.
  unfold linearProgress, indeterminate, divide.
  destruct (Z.eqb_spec (total w) 0) as [E|E].
  - split; [done|]. split; [done|]. intros H. by destruct H.
  - split; [done|]. split; [intros H; by destruct E|done].
Qed.

Lemma C9_witness :
  let idle := (init javaScriptCore) in
  let busy := set_total 4 (set_completed 3 (init javaScriptCore)) in
  (total idle = 0 ∧ indeterminate idle = true ∧
   linearProgress idle = Finite 0%Q) ∧
  (total busy ≠ 0 ∧ indeterminate busy = false ∧
   linearProgress busy = Finite (inject_Z 3 / inject_Z 4)%Q).
Proof.
  intros idle busy.
  assert (Hb : total busy ≠ 0) by discriminate.
  split.
  - split; [reflexivity|].
    exact (proj1 (proj2 (C9_no_division_by_zero idle)) eq_refl).
  - split; [exact Hb|].
    exact (proj2 (proj2 (C9_no_division_by_zero busy)) Hb).
Defined.

(** ** Truthiness of the line, type of the numbers *)

(** C10: a payload whose [detail] is the empty string does to the world
    exactly what the same payload without [detail] does: no line is queued
    and the counter stays.  The numeric fields are honoured at 0: a
    [progress] of 0 becomes the pending absolute value, a [total] of 0 the
    pending total, and a [progressInc] of 0 is added to the pending
    increment, where a payload without [progress] leaves the pending
    absolute value alone.  The handler of the other revision treats the
    empty line the same way. *)
Theorem C10_empty_detail_is_no_detail :
  (∀ w a b c,
     let w' := onProgress (Payload.Make a b c (Some "")) w in
     w' = onProgress (Payload.Make a b c None) w ∧
     pendingDetails w' = pendingDetails w ∧
     pendingDetailIndex w' = pendingDetailIndex w) ∧
  (∀ w b c d,
     pendingCompleted (onProgress (Payload.Make (Some 0) b c d) w) = Some 0) ∧
  (∀ w a b d,
     pendingTotal (onProgress (Payload.Make a b (Some 0) d) w) = Some 0) ∧
  (∀ w a c d,
     pendingIncrement (onProgress (Payload.Make a (Some 0) c d) w)
     = pendingIncrement w + 0) ∧
  (∀ w b c d,
     pendingCompleted (onProgress (Payload.Make None b c d) w)
     = pendingCompleted w) ∧
  (∀ w a b c,
     let w' := Raw.onProgress (Payload.Make a b c (Some "")) w in
     w' = Raw.onProgress (Payload.Make a b c None) w ∧
     pendingDetails w' = pendingDetails w).
Proof.
  split; [|split; [|split; [|split; [|split]]]].
  - intros w a b c w'. split; [done|].
    destruct (onProgress_vars (Payload.Make a b c (Some "")) w)
      as (_ & _ & _ & Ex & Ep & _).
    fold w' in Ex, Ep. rewrite Ex, Ep. cbn. by rewrite app_nil_r.
  - intros w b c d.
    by destruct (onProgress_vars (Payload.Make (Some 0) b c d) w) as (-> & _).
  - intros w a b d.
    by destruct (onProgress_vars (Payload.Make a b (Some 0) d) w)
      as (_ & _ & -> & _).
  - intros w a c d.
    by destruct (onProgress_vars (Payload.Make a (Some 0) c d) w)
      as (_ & -> & _).
  - intros w b c d.
    by destruct (onProgress_vars (Payload.Make None b c d) w) as (-> & _).
  - intros w a b c w'. split; [done|]. subst w'.
    unfold Raw.onProgress. script.
    destruct w as [co t d fh pu pc pi pt px pd hst]. fields.
    destruct a, b, c, fh; done.
Qed.

(** * Further properties of the panel *)

(** ** Flushing with nothing pending *)

Lemma set_flushHandle_same w :
  flushHandle w = None → set_flushHandle None w = w.
Proof. destruct w; cbn. by intros ->. Qed.

Lemma flushProgressUpdates_clean w : clean w → flushProgressUpdates w = w.
Proof.
  unfold clean. script.
  destruct w as [c t d fh pu pc pi pt px pd hst]. fields.
  intros (-> & -> & -> & ->). done.
Qed.

Lemma flushCallback_twice w : flushCallback (flushCallback w) = flushCallback w.
Proof.
  pose proof (flushCallback_engine w) as Ee.
  destruct (flushCallback_vars w)
    as (_ & _ & _ & Et & Ec & Ei & Ep & _ & Ef & _).
  destruct (overflows w) eqn:Eo.
  - apply flushCallback_stuck; try done.
    unfold overflows in *. by rewrite Ep, Ee.
  - unfold flushCallback at 1. unfold andThen.
    rewrite set_flushHandle_same by done.
    by apply flushProgressUpdates_clean.
Qed.

Lemma flushCallback_clean_eq w :
  clean w → flushCallback w = set_flushHandle None w.
Proof.
  intros Hc. unfold flushCallback, andThen.
  apply flushProgressUpdates_clean. destruct w. exact Hc.
Qed.

(** What the empty payload leaves alone. *)
Lemma empty_payload_vars w :
  let w' := onProgress Payload.empty w in
  pendingCompleted w' = pendingCompleted w ∧
  pendingIncrement w' = pendingIncrement w ∧
  pendingTotal w' = pendingTotal w ∧
  pendingDetailIndex w' = pendingDetailIndex w ∧
  pendingDetails w' = pendingDetails w ∧
  completed w' = completed w ∧ total w' = total w ∧
  details w' = details w ∧ ticks (host w') = ticks (host w).
Proof.
  cbv zeta.
  destruct (onProgress_vars Payload.empty w)
    as (-> & -> & -> & -> & -> & -> & -> & -> & _ & _ & _ & _ & _ & ->).
  cbn. rewrite Z.add_0_r, app_nil_r. done.
Qed.

(** X1: a flush that finds nothing pending changes nothing, not even the
    tick queue; so the flush an empty payload schedules is without effect,
    and flushing twice is flushing once. *)
Theorem X1_flush_nothing_pending :
  (∀ w, clean w → flushProgressUpdates w = w) ∧
  (∀ w, clean w → flushHandle w = None → flushCallback w = w) ∧
  (∀ w, flushCallback (flushCallback w) = flushCallback w) ∧
  (∀ w, clean w →
     let w' := flushCallback (onProgress Payload.empty w) in
     completed w' = completed w ∧ total w' = total w ∧
     details w' = details w ∧ clean w' ∧
     pendingDetailIndex w' = pendingDetailIndex w ∧
     ticks (host w') = ticks (host w)).
Proof.
  assert (G : ∀ w, clean w → flushHandle w = None → flushCallback w = w).
  { intros w Hc Hf. unfold flushCallback, andThen.
    rewrite set_flushHandle_same by done. by apply flushProgressUpdates_clean. }
  split; [exact flushProgressUpdates_clean|]. split; [exact G|]. split.
  - exact flushCallback_twice.
  - intros w (Hc & Hi & Ht & Hd) w'.
    destruct (empty_payload_vars w)
      as (Ec & Ei & Et & Ex & Ed & Eco & Eto & Ede & Eti).
    assert (clean (onProgress Payload.empty w)) as Hc1.
    { unfold clean. by rewrite Ec, Ei, Et, Ed. }
    subst w'. rewrite flushCallback_clean_eq by done.
    destruct (onProgress Payload.empty w). cbn in *. by subst.
Qed.

Lemma X1_witness :
  let w := flushCallback (onProgress (Payload.Make (Some 3) None None None) (init javaScriptCore)) in
  clean w ∧ flushHandle w = None ∧
  flushProgressUpdates w = w ∧ flushCallback w = w.
Proof.
  intros w.
  assert (Hc : clean w) by (repeat split).
  assert (Hf : flushHandle w = None) by reflexivity.
  destruct X1_flush_nothing_pending as (H1 & H2 & _).
  split; [exact Hc|]. split; [exact Hf|].
  split; [exact (H1 w Hc)|exact (H2 w Hc Hf)].
Defined.

(** ** Absolute progress and increments in either order *)

(** X2: within a window it does not matter whether the absolute progress
    arrives before or after an increment: the handler calls commute, and
    the flush displays the absolute value plus everything that was added
    in the window, also what was added before the absolute value
    arrived. *)
Theorem X2_absolute_and_increment_commute (w : World) (a i : Z) :
  let absolute := Payload.Make (Some a) None None None in
  let increment := Payload.Make None (Some i) None None in
  onProgress absolute (onProgress increment w)
  = onProgress increment (onProgress absolute w) ∧
  completed (flushCallback (onProgress absolute (onProgress increment w)))
  = a + (pendingIncrement w + i).
Proof.
  intros absolute increment. split.
  - change (onProgress absolute) with
      (set_pendingCompleted (Some a) >> scheduleProgressFlush).
    change (onProgress increment) with
      ((λ w, set_pendingIncrement (pendingIncrement w + i) w)
       >> scheduleProgressFlush).
    unfold andThen, scheduleProgressFlush.
    destruct w as [c t d fh pu pc pi pt px pd hst]. fields.
    destruct fh; done.
  - destruct (flushCallback_vars (onProgress absolute (onProgress increment w)))
      as (_ & -> & _).
    destruct (onProgress_vars absolute (onProgress increment w))
      as (-> & -> & _).
    destruct (onProgress_vars increment w) as (_ & -> & _).
    cbn. lia.
Qed.

(** ** Unmounting *)

Lemma quiet_turn e v :
  quiet e → timers (host v) = [] → flushHandle v = None →
  timers (host (turn e v)) = [] ∧ flushHandle (turn e v) = None ∧
  same_variables (turn e v) v.
Proof.
  intros Hq Ht Hf. destruct e as [j|id|id p|h|]; try done; cbn [turn].
  - case_bool_decide; [|done]. unfold same_variables. script.
    destruct v as [c t d fh pu pc pi pt px pd hst]. fields. done.
  - by rewrite bool_decide_eq_false_2 by (rewrite Ht; apply not_elem_of_nil).
  - unfold same_variables. script.
    destruct v as [c t d fh pu pc pi pt px pd hst]. fields. subst fh.
    destruct pu; done.
Qed.

Lemma quiet_run es v :
  Forall quiet es → timers (host v) = [] → flushHandle v = None →
  timers (host (run es v)) = [] ∧ flushHandle (run es v) = None ∧
  same_variables (run es v) v.
Proof.
  revert v. induction es as [|e es IH]; intros v Hq Ht Hf; [done|].
  inversion Hq as [|? ? He Hes]; subst.
  destruct (quiet_turn e v He Ht Hf) as (Ht' & Hf' & Hs').
  change (run (e :: es) v) with (run es (turn e v)).
  destruct (IH (turn e v) Hes Ht' Hf') as (Ht2 & Hf2 & Hs2).
  split; [done|]. split; [done|].
  unfold same_variables in *.
  destruct Hs' as (? & ? & ? & ? & ? & ? & ? & ?).
  destruct Hs2 as (? & ? & ? & ? & ? & ? & ? & ?).
  repeat split; congruence.
Qed.

(** X5: in every world the event loop can reach, unmounting leaves no
    timeout outstanding and no flush handle, forgets the unlisten function,
    and touches neither the displayed nor the pending variables: what was
    pending stays pending.  Unmounting twice is unmounting once.  After
    the unmount no flush runs and nothing changes as long as no payload is
    handled and the job id does not change: through every run of
    timeouts, resolved promises and unmounts there is no timeout
    outstanding and the variables stay as they were.  A payload handled
    after the unmount, by a listener that is still registered, schedules a
    flush again. *)
Theorem X5_unmount (e : Engine) (es : list Event) :
  let w := run es (init e) in
  let w' := turn BeforeUnmount w in
  flushHandle w' = None ∧ timers (host w') = [] ∧
  progressUnlisten w' = None ∧
  same_variables w' w ∧
  turn BeforeUnmount w' = w' ∧
  (∀ es',
     Forall quiet es' →
     timers (host (run es' w')) = [] ∧ flushHandle (run es' w') = None ∧
     same_variables (run es' w') w) ∧
  (∀ id p,
     id ∈ listenerIds w' →
     flushHandle (turn (Emitted id p) w') = Some (nextTimer (host w')) ∧
     timers (host (turn (Emitted id p) w')) = [nextTimer (host w')]).
Proof.
  intros w w'.
  destruct (reachable_inv e es) as (Ht & _). fold w in Ht.
  assert (flushHandle w' = None ∧ timers (host w') = [] ∧
          progressUnlisten w' = None) as (Ef & Et & Ep).
  { subst w'. cbn [turn]. unfold timer_inv in Ht. script.
    destruct w as [c t d fh pu pc pi pt px pd hst]. fields.
    destruct fh, pu; fields; rewrite Ht, ?filter_ne_singleton; done. }
  assert (same_variables w' w) as Hs.
  { subst w'. cbn [turn]. unfold same_variables. script.
    by destruct w as [c t d [h|] [u|] pc pi pt px pd hst]. }
  do 3 (split; [done|]). split; [done|]. split; [|split].
  - revert Ef Ep. generalize w'. intros v. cbn [turn]. script.
    destruct v as [c t d fh pu pc pi pt px pd hst]. fields.
    intros -> ->. done.
  - intros es' Hq.
    destruct (quiet_run es' w' Hq Et Ef) as (Ht2 & Hf2 & Hs2).
    split; [done|]. split; [done|].
    unfold same_variables in *.
    destruct Hs as (? & ? & ? & ? & ? & ? & ? & ?).
    destruct Hs2 as (? & ? & ? & ? & ? & ? & ? & ?).
    repeat split; congruence.
  - intros id p Hid. cbn [turn].
    rewrite bool_decide_eq_true_2 by done.
    destruct (onProgress_vars p w')
      as (_ & _ & _ & _ & _ & _ & _ & _ & _ & -> & -> & _).
    by rewrite Ef, Et.
Qed.

Lemma X5_witness :
  let es := [JobIdChanged (JobNumber 1); Emitted 1 (line "w")] in
  let w' := turn BeforeUnmount (run es (init javaScriptCore)) in
  let es' := [TimeoutFired 1; ListenResolved 1; TimeoutFired 1] in
  Forall quiet es' ∧ 1%nat ∈ listenerIds w' ∧
  pendingDetails w' = ["[1] w"] ∧
  flushHandle (run es' w') = None ∧
  details (run es' w') = [] ∧ pendingDetails (run es' w') = ["[1] w"] ∧
  flushHandle (turn (Emitted 1 (line "x")) w') = Some 2%nat.
Proof.
  intros es w' es'.
  assert (Hq : Forall quiet es') by (repeat constructor).
  assert (Hid : 1%nat ∈ listenerIds w') by apply list_elem_of_here.
  destruct (X5_unmount javaScriptCore es) as (_ & _ & _ & _ & _ & H1 & H2).
  destruct (H1 es' Hq) as (_ & Hf & _ & _ & Hd & _ & _ & _ & Hp & _).
  split; [exact Hq|]. split; [exact Hid|]. split; [reflexivity|].
  split; [exact Hf|]. split; [exact Hd|]. split; [exact Hp|].
  exact (proj1 (H2 1%nat (line "x") Hid)).
Defined.

(** ** Listeners *)

Lemma init_fresh e : fresh_inv (init e).
Proof.
  unfold fresh_inv, listenerIds. cbn.
  split; [|split]; intros id H; try done; by apply elem_of_nil in H.
Qed.

Lemma listenerIds_filter u (ls : list (nat * string)) id :
  id ∈ (filter (λ x, x.1 ≠ u) ls).*1 ↔ id ∈ ls.*1 ∧ id ≠ u.
Proof.
  rewrite !list_elem_of_fmap. split.
  - intros (x & -> & Hx). apply list_elem_of_filter in Hx as [Hne Hx].
    split; [|done]. by exists x.
  - intros [(x & -> & Hx) Hne]. exists x. split; [done|].
    by apply list_elem_of_filter.
Qed.

Lemma startListening_channel_eq j w :
  listeners (host (startListening j w))
  = match progressUnlisten w with
    | Some u => filter (λ x, x.1 ≠ u) (listeners (host w))
    | None => listeners (host w)
    end ++ [(nextListener (host w), topic j)] ∧
  nextListener (host (startListening j w)) = S (nextListener (host w)) ∧
  resolving (host (startListening j w))
  = resolving (host w) ++ [nextListener (host w)] ∧
  progressUnlisten (startListening j w) = progressUnlisten w.
Proof.
  script. destruct w as [c t d fh pu pc pi pt px pd hst]. fields.
  destruct fh, pu; done.
Qed.

(** The listeners and promises after the synchronous part of
    [startListening]. *)
Lemma startListening_channel j w :
  (∀ id, id ∈ listenerIds (startListening j w) ↔
         (id ∈ listenerIds w ∧ progressUnlisten w ≠ Some id)
         ∨ id = nextListener (host w)) ∧
  (∀ id, id ∈ resolving (host (startListening j w)) ↔
         id ∈ resolving (host w) ∨ id = nextListener (host w)) ∧
  nextListener (host (startListening j w)) = S (nextListener (host w)) ∧
  progressUnlisten (startListening j w) = progressUnlisten w.
Proof.
  destruct (startListening_channel_eq j w) as (El & En & Er & Ep).
  unfold listenerIds. rewrite El, En, Er, Ep.
  split; [|split; [|done]].
  - intros id. rewrite fmap_app, elem_of_app. cbn [fmap list_fmap fst].
    rewrite list_elem_of_singleton.
    destruct (progressUnlisten w) as [u|].
    + rewrite listenerIds_filter.
      split; (intros [[? ?]|?]; [left|right]; try done).
      all: split; [done|congruence].
    + split; (intros [H|?]; [left|right]; try done). by destruct H.
  - intros id. by rewrite elem_of_app, list_elem_of_singleton.
Qed.

Lemma onProgress_channel p w :
  listeners (host (onProgress p w)) = listeners (host w) ∧
  nextListener (host (onProgress p w)) = nextListener (host w) ∧
  resolving (host (onProgress p w)) = resolving (host w) ∧
  progressUnlisten (onProgress p w) = progressUnlisten w.
Proof.
  script.
  destruct w as [c t d fh pu pc pi pt px pd hst], p as [a b e f]. fields.
  destruct a, b, e, (truthy f), fh; done.
Qed.

Lemma flush_nextListener w :
  nextListener (host (flushProgressUpdates w)) = nextListener (host w).
Proof.
  script. unfold pushSpread.
  destruct w as [c t d fh pu pc pi pt px pd hst]. fields.
  destruct pt as [t'|], pc as [c'|]; fields;
    (destruct (Z.eqb_spec pi 0) as [->|Hpi]; fields);
    (destruct pd as [|l pd]; [done|]);
    (replace (Z.of_nat (length (l :: pd)) =? 0) with false
       by (symmetry; apply Z.eqb_neq; cbn [length]; lia));
    (destruct (Z.of_nat (length (l :: pd)) >? maxArguments (engine hst));
     [done|]);
    case_match; fields; done.
Qed.

Lemma fire_channel h w :
  let w' := (call (dequeueTimer h) >> flushCallback) w in
  listeners (host w') = listeners (host w) ∧
  nextListener (host w') = nextListener (host w) ∧
  resolving (host w') = resolving (host w) ∧
  progressUnlisten w' = progressUnlisten w.
Proof.
  cbv zeta. unfold flushCallback, andThen.
  destruct (flush_vars (set_flushHandle None (call (dequeueTimer h) w)))
    as (_ & _ & _ & _ & _ & _ & _ & _ & _ & -> & _ & -> & ->).
  rewrite flush_nextListener. by destruct w.
Qed.

Lemma turn_fresh e w : fresh_inv w → fresh_inv (turn e w).
Proof.
  intros (Hl & Hr & Hp). destruct e as [j|id|id p|h|]; cbn [turn].
  - destruct (startListening_channel j w) as (El & Er & En & Ep).
    unfold fresh_inv. rewrite En, Ep.
    split; [|split].
    + intros id Hid. apply El in Hid as [[Hid _]| ->]; [|lia].
      apply Hl in Hid. lia.
    + intros id Hid. apply Er in Hid as [Hid| ->]; [|lia].
      apply Hr in Hid. lia.
    + intros id Hid. apply Hp in Hid. lia.
  - case_bool_decide as Hid; [|done].
    unfold fresh_inv, listenerIds in *. script.
    destruct w as [c t d fh pu pc pi pt px pd hst]. fields.
    split; [done|]. split.
    + intros x Hx. apply list_elem_of_filter in Hx as [_ Hx]. by apply Hr.
    + intros x [= <-]. by apply Hr.
  - case_bool_decide; [|done].
    destruct (onProgress_channel p w) as (El & En & Er & Ep).
    unfold fresh_inv, listenerIds in *. rewrite El, En, Er, Ep. done.
  - case_bool_decide; [|done].
    destruct (fire_channel h w) as (El & En & Er & Ep).
    unfold fresh_inv, listenerIds in *. rewrite El, En, Er, Ep. done.
  - unfold fresh_inv, listenerIds in *. script.
    destruct w as [c t d fh pu pc pi pt px pd hst]. fields.
    destruct fh, pu; fields; (split; [|split; [done|done]]);
      intros x Hx; try (by apply Hl);
      apply listenerIds_filter in Hx as [Hx _]; by apply Hl.
Qed.

Lemma run_fresh es w : fresh_inv w → fresh_inv (run es w).
Proof.
  revert w. induction es as [|e es IH]; intros w H; [done|].
  apply (IH (turn e w)). by apply turn_fresh.
Qed.

Lemma not_listening_no_call id p w :
  id ∉ listenerIds w → turn (Emitted id p) w = w.
Proof. intros H. cbn [turn]. by rewrite bool_decide_eq_false_2. Qed.

(** X3: once the promise of [listen] has resolved, the next change of the
    job id, and likewise unmounting, takes that listener off the channel:
    from then on a payload sent to it is not handled and changes
    nothing. *)
Theorem X3_old_listener_unsubscribed (e : Engine) (es : list Event) (u : nat) :
  progressUnlisten (run es (init e)) = Some u →
  ∀ j p,
    let rebound := turn (JobIdChanged j) (run es (init e)) in
    let unmounted := turn BeforeUnmount (run es (init e)) in
    (u ∉ listenerIds rebound) ∧ turn (Emitted u p) rebound = rebound ∧
    (u ∉ listenerIds unmounted) ∧ turn (Emitted u p) unmounted = unmounted.
Proof.
  intros Hu j p rebound unmounted.
  destruct (run_fresh es (init e) (init_fresh e)) as (_ & _ & Hp).
  pose proof (Hp u Hu) as Hlt.
  assert (u ∉ listenerIds rebound) as H1.
  { destruct (startListening_channel j (run es (init e))) as (El & _).
    intros Hin. apply El in Hin as [[_ Hne]|He]; [done|lia]. }
  assert (u ∉ listenerIds unmounted) as H2.
  { subst unmounted. cbn [turn]. unfold listenerIds. script.
    revert Hu. generalize (run es (init e)). intros w Hu.
    destruct w as [c t d fh pu pc pi pt px pd hst]. fields. subst pu.
    destruct fh; fields; rewrite listenerIds_filter; by intros [_ ?]. }
  split; [done|]. split; [by apply not_listening_no_call|].
  split; [done|]. by apply not_listening_no_call.
Qed.

Lemma X3_witness :
  let es := [JobIdChanged (JobNumber 7); ListenResolved 1;
             Emitted 1 (line "x")] in
  progressUnlisten (run es (init javaScriptCore)) = Some 1%nat ∧
  turn (Emitted 1 (line "y")) (turn (JobIdChanged JobNull) (run es (init javaScriptCore)))
  = turn (JobIdChanged JobNull) (run es (init javaScriptCore)).
Proof.
  intros es.
  assert (Hu : progressUnlisten (run es (init javaScriptCore)) = Some 1%nat) by reflexivity.
  split; [exact Hu|].
  exact (proj1 (proj2 (X3_old_listener_unsubscribed javaScriptCore es 1 Hu JobNull (line "y")))).
Defined.

(** X4: a listener that is registered while [progressUnlisten] does not
    stand for it and no promise for it is pending (all this is so for the
    first listener when the job id changes again before the first promise
    resolves and both promises resolve in turn) is never taken off the
    channel by anything the panel does later: it stays registered through
    every further event, unmounting included, and every payload sent to it
    is still handled. *)
Theorem X4_listener_never_released (e : Engine) (es0 es : list Event) (id : nat) :
  let w := run es0 (init e) in
  id ∈ listenerIds w →
  progressUnlisten w ≠ Some id →
  id ∉ resolving (host w) →
  id ∈ listenerIds (run es w) ∧
  ∀ p, turn (Emitted id p) (run es w) = onProgress p (run es w).
Proof.
  intros w Hin Hpu Hres.
  assert (K : ∀ es v,
    fresh_inv v → id ∈ listenerIds v → progressUnlisten v ≠ Some id →
    id ∉ resolving (host v) → id ∈ listenerIds (run es v)).
  { clear. induction es as [|e es IH]; intros v Hf Hin Hpu Hres; [done|].
    change (run (e :: es) v) with (run es (turn e v)).
    pose proof (turn_fresh e v Hf) as Hf'.
    destruct Hf as (Hl & Hr & Hp). pose proof (Hl id Hin) as Hlt.
    apply IH; [done|..]; destruct e as [j|i|i p|h|]; cbn [turn].
    - apply startListening_channel. by left.
    - case_bool_decide; [|done]. unfold listenerIds in *. script.
      by destruct v.
    - case_bool_decide; [|done].
      destruct (onProgress_channel p v) as (El & _).
      unfold listenerIds in *. by rewrite El.
    - case_bool_decide; [|done].
      destruct (fire_channel h v) as (El & _).
      unfold listenerIds in *. by rewrite El.
    - unfold listenerIds in *. script.
      destruct v as [c t d fh pu pc pi pt px pd hst]. fields.
      destruct fh, pu; fields; rewrite ?listenerIds_filter; try done;
        split; try done; congruence.
    - by destruct (startListening_channel_eq j v) as (_ & _ & _ & ->).
    - case_bool_decide as Hi; [|done]. script. destruct v. fields.
      intros [= ->]. done.
    - case_bool_decide; [|done].
      by destruct (onProgress_channel p v) as (_ & _ & _ & ->).
    - case_bool_decide; [|done].
      by destruct (fire_channel h v) as (_ & _ & _ & ->).
    - script. destruct v as [c t d fh pu pc pi pt px pd hst]. fields.
      destruct fh, pu; done.
    - intros Hid. apply startListening_channel in Hid as [Hid| ->]; [done|lia].
    - case_bool_decide as Hi; [|done]. script. destruct v. fields.
      intros Hx. by apply list_elem_of_filter in Hx as [_ Hx].
    - case_bool_decide; [|done].
      by destruct (onProgress_channel p v) as (_ & _ & -> & _).
    - case_bool_decide; [|done].
      by destruct (fire_channel h v) as (_ & _ & -> & _).
    - script. destruct v as [c t d fh pu pc pi pt px pd hst]. fields.
      destruct fh, pu; done. }
  assert (id ∈ listenerIds (run es w)) as H.
  { apply K; [by apply run_fresh, init_fresh|done..]. }
  split; [done|]. intros p. cbn [turn].
  by rewrite bool_decide_eq_true_2.
Qed.

Lemma X4_witness :
  let es0 := [JobIdChanged (JobNumber 1); JobIdChanged (JobNumber 2);
              ListenResolved 1; ListenResolved 2] in
  let es := [JobIdChanged JobNull; ListenResolved 3; BeforeUnmount] in
  let w := run es0 (init javaScriptCore) in
  (1%nat ∈ listenerIds w ∧ progressUnlisten w ≠ Some 1%nat ∧
   (1%nat ∉ resolving (host w))) ∧
  1%nat ∈ listenerIds (run es w) ∧
  turn (Emitted 1 (line "x")) (run es w) = onProgress (line "x") (run es w).
Proof.
  intros es0 es w.
  assert (H1 : 1%nat ∈ listenerIds w) by (apply list_elem_of_here).
  assert (H2 : progressUnlisten w ≠ Some 1%nat) by discriminate.
  assert (H3 : 1%nat ∉ resolving (host w)) by apply not_elem_of_nil.
  split; [done|].
  destruct (X4_listener_never_released javaScriptCore es0 es 1 H1 H2 H3) as [Ha Hb].
  split; [exact Ha|exact (Hb (line "x"))].
Defined.

(** ** Strings of lines *)

Lemma string_app_cons x (a b : string) : String x a +:+ b = String x (a +:+ b).
Proof. reflexivity. Qed.

Lemma string_app_nil_l (a : string) : "" +:+ a = a.
Proof. reflexivity. Qed.

Lemma string_app_assoc (a b c : string) : (a +:+ b) +:+ c = a +:+ (b +:+ c).
Proof.
  induction a as [|x a IH]; [done|]. by rewrite !string_app_cons, IH.
Qed.

Lemma string_app_nil_r (a : string) : a +:+ "" = a.
Proof.
  induction a as [|x a IH]; [done|]. by rewrite string_app_cons, IH.
Qed.

Lemma join_blocks b : b ≠ [] → join newline b +:+ newline = blocks b.
Proof.
  induction b as [|x [|y b] IH]; intros Hb; [done| |].
  - cbn [join blocks]. by rewrite string_app_nil_r.
  - change (join newline (x :: y :: b))
      with (x +:+ newline +:+ join newline (y :: b)).
    cbn [blocks] in *. rewrite <- IH by done.
    by rewrite !string_app_assoc.
Qed.

Lemma blocks_app a b : blocks (a ++ b) = blocks a +:+ blocks b.
Proof.
  induction a as [|x a IH]; cbn [app blocks]; [done|].
  by rewrite IH, !string_app_assoc.
Qed.

Lemma split_line l rest :
  occurs newlineChar l = 0%nat →
  split newlineChar (l +:+ newline +:+ rest) = l :: split newlineChar rest.
Proof.
  induction l as [|x l IH]; intros Hl.
  - rewrite string_app_nil_l. unfold newline. fold newlineChar.
    rewrite string_app_cons, string_app_nil_l. cbn [split].
    by rewrite Ascii.eqb_refl.
  - cbn [occurs] in Hl. rewrite string_app_cons. cbn [split].
    destruct (Ascii.eqb x newlineChar); [done|].
    rewrite IH by done. done.
Qed.

Lemma split_blocks ls :
  Forall (λ l, occurs newlineChar l = 0%nat) ls →
  split newlineChar (blocks ls) = ls ++ [""].
Proof.
  induction 1 as [|l ls Hl _ IH]; [done|].
  cbn [blocks app]. by rewrite split_line, IH.
Qed.

Lemma slice2_drop_last {A} (l : list A) (x : A) : slice2 0 (-1) (l ++ [x]) = l.
Proof.
  unfold slice2. rewrite length_app. cbn [length].
  replace (0 <? 0) with false by done. replace (-1 <? 0) with true by done.
  replace (Z.to_nat (Z.min 0 _)) with 0%nat by lia. rewrite drop_0.
  replace (Z.to_nat _) with (length l) by lia.
  by rewrite take_app_length.
Qed.

Lemma split_length c s : length (split c s) = S (occurs c s).
Proof.
  induction s as [|x s IH]; [done|]. cbn [split occurs].
  destruct (Ascii.eqb x c); cbn [length]; [by rewrite IH|].
  destruct (split c s); cbn in *; lia.
Qed.

Lemma slice2_length_drop_last {A} (l : list A) :
  length (slice2 0 (-1) l) = (length l - 1)%nat.
Proof.
  unfold slice2. replace (0 <? 0) with false by done.
  replace (-1 <? 0) with true by done.
  replace (Z.to_nat (Z.min 0 _)) with 0%nat by lia. rewrite drop_0.
  rewrite length_take. lia.
Qed.

Lemma occurs_app c a b : occurs c (a +:+ b) = (occurs c a + occurs c b)%nat.
Proof.
  induction a as [|x a IH]; [done|].
  rewrite string_app_cons. cbn [occurs]. rewrite IH. lia.
Qed.

Lemma occurs_blocks ls :
  occurs newlineChar (blocks ls)
  = (length ls + foldr Nat.add 0%nat (occurs newlineChar <$> ls))%nat.
Proof.
  induction ls as [|l ls IH]; [done|].
  cbn [blocks length fmap list_fmap foldr].
  rewrite !occurs_app, IH.
  change (occurs newlineChar newline) with 1%nat. lia.
Qed.

Lemma imap_numbered first ls :
  imap (λ i s, numbered (first + N.of_nat i) s) ls = numberedFrom first ls.
Proof.
  revert first. induction ls as [|l ls IH]; intros first; [done|].
  rewrite imap_cons. cbn [numberedFrom]. rewrite N.add_0_r. f_equal.
  rewrite <- IH. apply imap_ext. intros i x _. cbn. f_equal. lia.
Qed.

Lemma texts_app ps qs : texts (ps ++ qs) = texts ps ++ texts qs.
Proof. unfold texts. apply omap_app. Qed.

Lemma texts_oneLine ps :
  Forall oneLine ps → Forall (λ l, occurs newlineChar l = 0%nat) (texts ps).
Proof.
  induction 1 as [|p ps Hp _ IH]; [constructor|].
  unfold texts in *. cbn [omap list_omap].
  destruct (truthy (Payload.detail p)) eqn:Ht; [|done].
  unfold oneLine in Hp. destruct (Payload.detail p) as [s|]; [|done].
  cbn. by constructor.
Qed.

Lemma numberLines_texts idx ps :
  numberLines idx ps = numberedFrom (idx + 1) (texts ps).
Proof.
  revert idx. induction ps as [|p ps IH]; intros idx; [done|].
  unfold texts in *. cbn [numberLines omap list_omap].
  destruct (truthy (Payload.detail p)) eqn:Ht; [|by rewrite IH].
  destruct (Payload.detail p) as [s|]; [|done].
  cbn [numberedFrom splice mbind option_bind]. by rewrite IH.
Qed.

(** ** The panel that keeps the log as one string *)

Lemma Raw_onProgress_vars p w :
  let w' := Raw.onProgress p w in
  pendingCompleted w' =
    (if typeof_number (Payload.progress p) then Payload.progress p
     else pendingCompleted w) ∧
  pendingIncrement w' = pendingIncrement w + default 0 (Payload.progressInc p) ∧
  pendingTotal w' =
    (if typeof_number (Payload.total p) then Payload.total p
     else pendingTotal w) ∧
  pendingDetails w' =
    pendingDetails w ++
    (if truthy (Payload.detail p) then [splice (Payload.detail p)] else []) ∧
  completed w' = completed w ∧ total w' = total w.
Proof.
  unfold Raw.onProgress. script.
  destruct w as [c t d fh pu pc pi pt px pd hst], p as [a b e f].
  fields.
  destruct a, b, e, (truthy f), fh; fields;
    rewrite ?Z.add_0_r, ?app_nil_r; done.
Qed.

Lemma Text_ingestAll_cons x ps p :
  Text.ingestAll (x :: ps) p = Text.ingestAll ps (Text.onProgress x p).
Proof. done. Qed.

Lemma Text_ingestAll_vars ps p :
  let p' := Text.ingestAll ps p in
  Text.details p' = Text.details p ∧
  pendingCompleted (Text.vars p') =
    lastWrite (pendingCompleted (Text.vars p)) (Payload.progress <$> ps) ∧
  pendingIncrement (Text.vars p') =
    pendingIncrement (Text.vars p) + sumIncrements ps ∧
  pendingTotal (Text.vars p') =
    lastWrite (pendingTotal (Text.vars p)) (Payload.total <$> ps) ∧
  pendingDetails (Text.vars p') = pendingDetails (Text.vars p) ++ texts ps ∧
  completed (Text.vars p') = completed (Text.vars p) ∧
  total (Text.vars p') = total (Text.vars p).
Proof.
  revert p. induction ps as [|x ps IH]; intros p.
  - cbn. rewrite Z.add_0_r, app_nil_r. done.
  - cbv zeta. rewrite Text_ingestAll_cons.
    destruct (IH (Text.onProgress x p)) as (-> & -> & -> & -> & -> & -> & ->).
    change (Text.details (Text.onProgress x p)) with (Text.details p).
    change (Text.vars (Text.onProgress x p))
      with (Raw.onProgress x (Text.vars p)).
    destruct (Raw_onProgress_vars x (Text.vars p))
      as (-> & -> & -> & -> & -> & ->).
    change (sumIncrements (x :: ps))
      with (default 0 (Payload.progressInc x) + sumIncrements ps).
    unfold texts. cbn [fmap list_fmap lastWrite foldl omap list_omap].
    rewrite <- app_assoc.
    destruct (truthy (Payload.detail x)) eqn:Ht.
    + destruct (Payload.detail x); [|done].
      cbn [splice mbind option_bind]. repeat split; try done; lia.
    + cbn [app]. repeat split; try done; lia.
Qed.

Lemma Text_flushCallback_vars p :
  let p' := Text.flushCallback p in
  total (Text.vars p') =
    default (total (Text.vars p)) (pendingTotal (Text.vars p)) ∧
  completed (Text.vars p') =
    default (completed (Text.vars p)) (pendingCompleted (Text.vars p))
    + pendingIncrement (Text.vars p) ∧
  Text.details p' =
    Text.details p +:+ blocks (pendingDetails (Text.vars p)) ∧
  pendingTotal (Text.vars p') = None ∧
  pendingCompleted (Text.vars p') = None ∧
  pendingIncrement (Text.vars p') = 0 ∧
  pendingDetails (Text.vars p') = [].
Proof.
  unfold Text.flushCallback, Text.flushProgressUpdates, Text.on_vars,
    Text.set_details. script.
  destruct p as [s w]. cbn [Text.details Text.vars].
  destruct w as [c t d fh pu pc pi pt px pd hst]. fields.
  destruct pt as [t'|], pc as [c'|]; fields;
    (destruct (Z.eqb_spec pi 0) as [->|Hpi]; fields;
     [rewrite Z.add_0_r|]);
    (destruct pd as [|l pd];
     [cbn [length blocks]; rewrite string_app_nil_r; done|]);
    (replace (Z.of_nat (length (l :: pd)) =? 0) with false
       by (symmetry; apply Z.eqb_neq; cbn [length]; lia));
    fields; rewrite join_blocks by done; done.
Qed.

Lemma Text_windows_cons ps batches p :
  Text.windows (ps :: batches) p
  = Text.windows batches (Text.flushCallback (Text.ingestAll ps p)).
Proof. done. Qed.

Lemma windows_cons ps batches w :
  windows (ps :: batches) w = windows batches (flushCallback (ingestAll ps w)).
Proof. done. Qed.

(** The log of the string revision after windows of payloads. *)
Lemma Text_windows_details batches p ls :
  pendingDetails (Text.vars p) = [] →
  Text.details p = blocks ls →
  Text.details (Text.windows batches p) = blocks (ls ++ texts (concat batches)) ∧
  pendingDetails (Text.vars (Text.windows batches p)) = [].
Proof.
  revert p ls. induction batches as [|ps batches IH]; intros p ls Hp Hd.
  - cbn. by rewrite app_nil_r.
  - rewrite Text_windows_cons. cbn [concat]. rewrite texts_app, app_assoc.
    destruct (Text_flushCallback_vars (Text.ingestAll ps p))
      as (_ & _ & Ed & _ & _ & _ & Ep).
    destruct (Text_ingestAll_vars ps p) as (Ed' & _ & _ & _ & Ep' & _).
    apply IH; [done|].
    rewrite Ed, Ed', Ep', Hp, Hd. cbn [app]. by rewrite blocks_app.
Qed.

Lemma detailsWithLines_shown p :
  Text.detailsWithLines p = join newline (numberedFrom 1 (shownLines p)).
Proof.
  unfold Text.detailsWithLines. fold (shownLines p).
  rewrite <- imap_numbered. f_equal. apply imap_ext. intros i x _.
  cbn. f_equal. lia.
Qed.

Lemma text_lines e batches :
  Forall (Forall oneLine) batches →
  Text.details (Text.windows batches (Text.init e))
  = blocks (texts (concat batches)) ∧
  shownLines (Text.windows batches (Text.init e)) = texts (concat batches) ∧
  Text.detailsWithLines (Text.windows batches (Text.init e))
  = join newline (numberedFrom 1 (texts (concat batches))).
Proof.
  intros Hb.
  destruct (Text_windows_details batches (Text.init e) [] eq_refl eq_refl)
    as [Ed _].
  cbn [app] in Ed.
  assert (shownLines (Text.windows batches (Text.init e))
          = texts (concat batches)) as Es.
  { unfold shownLines. rewrite Ed, split_blocks.
    - apply slice2_drop_last.
    - apply texts_oneLine, Forall_concat, Hb. }
  split; [done|]. split; [done|].
  by rewrite detailsWithLines_shown, Es.
Qed.

(** X6: in the revision that keeps the log as one string, when no line a
    payload carries contains a newline, the string and the lines
    correspond: after any windows of payloads from the initial state the
    string is the lines that arrived, each followed by a newline, splitting
    it gives those lines back, and the display shows them numbered from 1
    in arrival order. *)
Theorem X6_text_lines_round_trip (e : Engine) (batches : list (list Payload.t)) :
  Forall (Forall oneLine) batches →
  let p := Text.windows batches (Text.init e) in
  let lines := texts (concat batches) in
  Text.details p = blocks lines ∧
  shownLines p = lines ∧
  Text.detailsWithLines p = join newline (numberedFrom 1 lines).
Proof. intros Hb p lines. by apply text_lines. Qed.

Lemma X6_witness :
  let batches := [[line "a"; Payload.Make (Some 1) None None (Some "")];
                  [line "b"]] in
  Forall (Forall oneLine) batches ∧
  shownLines (Text.windows batches (Text.init javaScriptCore)) = ["a"; "b"] ∧
  Text.detailsWithLines (Text.windows batches (Text.init javaScriptCore))
  = join newline ["[1] a"; "[2] b"].
Proof.
  intros batches.
  assert (H : Forall (Forall oneLine) batches) by (repeat constructor).
  split; [exact H|].
  exact (proj2 (X6_text_lines_round_trip javaScriptCore batches H)).
Defined.

(** X8: the string revision numbers pieces of text, not payloads: the
    number of lines it shows is the number of newlines in its string, and
    after any windows of payloads from the initial state that is the
    number of lines that arrived plus the number of newlines inside
    them. *)
Theorem X8_text_counts_newlines :
  (∀ p, length (shownLines p) = occurs newlineChar (Text.details p)) ∧
  (∀ e batches,
     let lines := texts (concat batches) in
     length (shownLines (Text.windows batches (Text.init e)))
     = (length lines + foldr Nat.add 0%nat (occurs newlineChar <$> lines))%nat).
Proof.
  assert (G : ∀ p, length (shownLines p) = occurs newlineChar (Text.details p)).
  { intros p. unfold shownLines.
    rewrite slice2_length_drop_last, split_length. lia. }
  split; [exact G|]. intros e batches lines.
  destruct (Text_windows_details batches (Text.init e) [] eq_refl eq_refl)
    as [Ed _].
  rewrite G, Ed. apply occurs_blocks.
Qed.

(** ** The two revisions side by side *)

Lemma countLines_texts ps : countLines ps = N.of_nat (length (texts ps)).
Proof.
  unfold countLines, texts. f_equal.
  induction ps as [|p ps IH]; [done|].
  rewrite filter_cons. cbn [omap list_omap].
  destruct (truthy (Payload.detail p)) eqn:Ht.
  - rewrite decide_True by done.
    destruct (Payload.detail p); [|done]. cbn. by rewrite IH.
  - rewrite decide_False by done. done.
Qed.

(** A window on an empty queue whose lines the engine can pass in one
    call, and its flush. *)
Lemma window_flushed ps w :
  pendingDetails w = [] →
  Z.of_nat (length (texts ps)) ≤ maxArguments (engine (host w)) →
  details (flushCallback (ingestAll ps w))
  = match texts ps with
    | [] => details w
    | _ => evict (details w
                  ++ numberedFrom (pendingDetailIndex w + 1) (texts ps))
    end ∧
  pendingDetails (flushCallback (ingestAll ps w)) = [] ∧
  pendingDetailIndex (flushCallback (ingestAll ps w))
  = (pendingDetailIndex w + N.of_nat (length (texts ps)))%N.
Proof.
  intros Hp Hfit.
  destruct (flushCallback_vars (ingestAll ps w))
    as (_ & _ & -> & _ & _ & _ & -> & -> & _).
  unfold overflows. rewrite ingestAll_engine.
  destruct (ingestAll_vars ps w) as (_ & _ & _ & -> & -> & _ & _ & -> & _).
  rewrite Hp, numberLines_texts, countLines_texts. cbn [app].
  rewrite numberedFrom_length.
  destruct (Z.gtb_spec (Z.of_nat (length (texts ps)))
              (maxArguments (engine (host w)))); [lia|].
  split; [|done]. by destruct (texts ps).
Qed.

(** The log of the revision with numbered lines after windows of payloads,
    as long as nothing is evicted. *)
Lemma windows_details batches w ts :
  pendingDetails w = [] →
  details w = numberedFrom 1 ts →
  pendingDetailIndex w = N.of_nat (length ts) →
  Z.of_nat (length ts + length (texts (concat batches))) ≤ 10500 →
  details (windows batches w) = numberedFrom 1 (ts ++ texts (concat batches)).
Proof.
  revert w ts. induction batches as [|ps batches IH]; intros w ts Hp Hd Hx Hlen.
  - cbn. by rewrite app_nil_r.
  - rewrite windows_cons. cbn [concat] in *. rewrite texts_app in *.
    rewrite length_app in Hlen. rewrite app_assoc.
    pose proof (maxArguments_floor (engine (host w))) as Hfloor.
    destruct (window_flushed ps w Hp) as (Ed & Ep & Ex); [lia|].
    rewrite Hd, Hx in Ed.
    replace (N.of_nat (length ts) + 1)%N with (1 + N.of_nat (length ts))%N
      in Ed by lia.
    rewrite <- numberedFrom_app in Ed.
    assert (details (flushCallback (ingestAll ps w))
            = numberedFrom 1 (ts ++ texts ps)) as Ed2.
    { rewrite Ed. destruct (texts ps) as [|l ls] eqn:Et.
      - by rewrite app_nil_r.
      - apply evict_small.
        rewrite numberedFrom_length, length_app. lia. }
    apply IH; [done|done| |].
    + rewrite Ex, Hx, length_app. lia.
    + rewrite length_app. lia.
Qed.

(** Both revisions merge the numbers alike. *)
Lemma windows_numbers batches p w :
  completed (Text.vars p) = completed w → total (Text.vars p) = total w →
  pendingCompleted (Text.vars p) = pendingCompleted w →
  pendingIncrement (Text.vars p) = pendingIncrement w →
  pendingTotal (Text.vars p) = pendingTotal w →
  completed (Text.vars (Text.windows batches p)) = completed (windows batches w) ∧
  total (Text.vars (Text.windows batches p)) = total (windows batches w).
Proof.
  revert p w. induction batches as [|ps batches IH]; intros p w Hc Ht Hpc Hpi Hpt.
  - done.
  - rewrite Text_windows_cons, windows_cons.
    destruct (Text_flushCallback_vars (Text.ingestAll ps p))
      as (Et1 & Ec1 & _ & Ept1 & Epc1 & Epi1 & _).
    destruct (Text_ingestAll_vars ps p) as (_ & Epc2 & Epi2 & Ept2 & _ & Ec2 & Et2).
    destruct (flushCallback_vars (ingestAll ps w))
      as (Et3 & Ec3 & _ & Ept3 & Epc3 & Epi3 & _).
    destruct (ingestAll_vars ps w) as (Epc4 & Epi4 & Ept4 & _ & _ & Ec4 & Et4 & _).
    apply IH; congruence.
Qed.

(** X7: fed the same windows of payloads from their initial states, the
    two revisions of the panel display the same thing, as long as no line
    contains a newline and no more than 10500 lines have arrived: the same
    numbered text, the same completed count and total, and so the same
    progress bar. *)
Theorem X7_revisions_agree (e : Engine) (batches : list (list Payload.t)) :
  Forall (Forall oneLine) batches →
  Z.of_nat (length (texts (concat batches))) ≤ 10500 →
  let p := Text.windows batches (Text.init e) in
  let w := windows batches (init e) in
  Text.detailsWithLines p = joinedDetails w ∧
  completed (Text.vars p) = completed w ∧
  total (Text.vars p) = total w ∧
  linearProgress (Text.vars p) = linearProgress w ∧
  indeterminate (Text.vars p) = indeterminate w.
Proof.
  intros Hb Hlen p w.
  destruct (text_lines e batches Hb) as (_ & _ & Et). fold p in Et.
  pose proof (windows_details batches (init e) [] eq_refl eq_refl eq_refl) as Ed.
  cbn [app length] in Ed. fold w in Ed.
  destruct (windows_numbers batches (Text.init e) (init e)) as [Ec Eto]; try done.
  fold p w in Ec, Eto.
  split.
  - rewrite Et. unfold joinedDetails. rewrite Ed by lia. done.
  - unfold linearProgress, indeterminate. rewrite Ec, Eto. done.
Qed.

Lemma X7_witness :
  let batches := [[line "a"; Payload.Make (Some 1) None (Some 4) None];
                  [Payload.Make None (Some 2) None (Some "b")]] in
  Forall (Forall oneLine) batches ∧
  Z.of_nat (length (texts (concat batches))) ≤ 10500 ∧
  Text.detailsWithLines (Text.windows batches (Text.init javaScriptCore))
  = joinedDetails (windows batches (init javaScriptCore)) ∧
  completed (Text.vars (Text.windows batches (Text.init javaScriptCore))) = 3.
Proof.
  intros batches.
  assert (H : Forall (Forall oneLine) batches) by (repeat constructor).
  assert (L : Z.of_nat (length (texts (concat batches))) ≤ 10500)
    by (vm_compute; discriminate).
  destruct (X7_revisions_agree javaScriptCore batches H L) as (E1 & E2 & _).
  split; [exact H|]. split; [exact L|]. split; [exact E1|].
  rewrite E2. reflexivity.
Defined.

(** ** The page *)

Lemma defaultThreads_eq t : ComputePage.defaultThreads t = (t + 1) / 2.
Proof.
  unfold ComputePage.defaultThreads, Qceiling, Qfloor, Qdiv, Qmult, Qinv,
    Qopp, inject_Z. cbn.
  rewrite Z.mul_1_r. replace (Z.pos (1 * 2)) with 2 by done.
  Z.div_mod_to_equations. lia.
Qed.

(** X9: the page takes half of the reported parallelism, rounded up, as
    the number of threads.  For a parallelism of at least 1 that is at
    least 1 and at most the parallelism, twice it is the parallelism or one
    more, and with an input folder chosen and the timelapse or the export
    enabled it does not disable the Process button. *)
Theorem X9_default_threads (t : Z) (inputPath : string) (timelapse export : bool) :
  1 ≤ t → inputPath ≠ "" → timelapse || export = true →
  let threads := ComputePage.defaultThreads t in
  1 ≤ threads ≤ t ∧ t ≤ 2 * threads ≤ t + 1 ∧
  ComputePage.processDisabled inputPath threads timelapse export = false.
Proof.
  intros Ht Hp He threads. subst threads. rewrite defaultThreads_eq.
  assert (1 ≤ (t + 1) / 2 ≤ t ∧ t ≤ 2 * ((t + 1) / 2) ≤ t + 1) as [H1 H2]
    by (Z.div_mod_to_equations; lia).
  split; [done|]. split; [done|].
  unfold ComputePage.processDisabled.
  rewrite bool_decide_eq_false_2 by done.
  replace ((t + 1) / 2 <? 1) with false by (symmetry; apply Z.ltb_ge; lia).
  destruct timelapse, export; done.
Qed.

Lemma X9_witness :
  1 ≤ 8 ∧ "clips" ≠ "" ∧ true || false = true ∧
  ComputePage.defaultThreads 8 = 4 ∧
  ComputePage.processDisabled "clips" (ComputePage.defaultThreads 8) true false
  = false.
Proof.
  assert (H1 : 1 ≤ 8) by lia.
  assert (H2 : "clips" ≠ "") by discriminate.
  assert (H3 : true || false = true) by reflexivity.
  split; [exact H1|]. split; [exact H2|]. split; [exact H3|].
  split; [reflexivity|].
  exact (proj2 (proj2 (X9_default_threads 8 "clips" true false H1 H2 H3))).
Defined.

(** ** The log as a part of the history *)

Lemma evict_at_least log m :
  m ≤ 10000 → m ≤ Z.of_nat (length log) → m ≤ Z.of_nat (length (evict log)).
Proof.
  intros Hm H.
  destruct (Z.le_gt_cases (Z.of_nat (length log)) 10500) as [Hs|Hl].
  - by rewrite evict_small.
  - destruct (evict_large log) as [_ ->]; [lia|done].
Qed.

Lemma flushCallback_suffix w :
  details (flushCallback w) ++ pendingDetails (flushCallback w)
    `suffix_of` details w ++ pendingDetails w.
Proof.
  destruct (flushCallback_vars w) as (_ & _ & -> & _ & _ & _ & -> & _).
  destruct (overflows w); [done|]. rewrite app_nil_r.
  destruct (pendingDetails w).
  - by rewrite app_nil_r.
  - apply evict_suffix.
Qed.

(** The log followed by the queue is the end of the numbered history. *)
Lemma windows_log batches w ts :
  details w ++ pendingDetails w `suffix_of` numberedFrom 1 ts →
  pendingDetailIndex w = N.of_nat (length ts) →
  details (windows batches w) ++ pendingDetails (windows batches w)
    `suffix_of` numberedFrom 1 (ts ++ texts (concat batches)) ∧
  pendingDetailIndex (windows batches w)
  = N.of_nat (length (ts ++ texts (concat batches))).
Proof.
  revert w ts. induction batches as [|ps batches IH]; intros w ts Hs Hx.
  - cbn [concat texts omap list_omap]. by rewrite app_nil_r.
  - rewrite windows_cons. cbn [concat]. rewrite texts_app, app_assoc.
    apply IH.
    + etrans; [apply flushCallback_suffix|].
      destruct (ingestAll_vars ps w)
        as (_ & _ & _ & _ & -> & _ & _ & -> & _).
      rewrite Hx, numberLines_texts, numberedFrom_app, app_assoc.
      replace (N.of_nat (length ts) + 1)%N with (1 + N.of_nat (length ts))%N
        by lia.
      by apply suffix_app.
    + destruct (flushCallback_vars (ingestAll ps w))
        as (_ & _ & _ & _ & _ & _ & _ & -> & _).
      destruct (ingestAll_vars ps w) as (_ & _ & _ & -> & _).
      rewrite Hx, countLines_texts, length_app. lia.
Qed.

(** With windows the engine can pass in one call, the committed log is the
    numbered history without its oldest lines. *)
Lemma windows_history batches w ts k :
  Forall (λ ps, Z.of_nat (length (texts ps)) ≤ maxArguments (engine (host w)))
    batches →
  pendingDetails w = [] →
  details w = drop k (numberedFrom 1 ts) → (k ≤ length ts)%nat →
  pendingDetailIndex w = N.of_nat (length ts) →
  Z.min 10000 (Z.of_nat (length ts)) ≤ Z.of_nat (length (details w)) →
  pendingDetails (windows batches w) = [] ∧
  Z.min 10000 (Z.of_nat (length (ts ++ texts (concat batches))))
  ≤ Z.of_nat (length (details (windows batches w))).
Proof.
  revert w ts k. induction batches as [|ps batches IH];
    intros w ts k Hfit Hp Hd Hk Hx Hmin.
  - cbn [concat texts omap list_omap]. by rewrite app_nil_r.
  - inversion Hfit as [|? ? Hps Hrest]; subst.
    rewrite windows_cons. cbn [concat]. rewrite texts_app, app_assoc.
    destruct (window_flushed ps w Hp Hps) as (Ed & Ep & Ex).
    assert (Hlen : length (details w) = (length ts - k)%nat).
    { by rewrite Hd, length_drop, numberedFrom_length. }
    assert (He : engine (host (flushCallback (ingestAll ps w)))
                 = engine (host w)).
    { by rewrite flushCallback_engine, ingestAll_engine. }
    rewrite Hd, Hx in Ed.
    replace (N.of_nat (length ts) + 1)%N with (1 + N.of_nat (length ts))%N
      in Ed by lia.
    destruct (texts ps) as [|l ls] eqn:Et.
    + rewrite app_nil_r in *.
      apply (IH _ ts k).
      * by rewrite He.
      * done.
      * by rewrite Ed.
      * done.
      * rewrite Ex, Hx. cbn [length]. lia.
      * by rewrite Ed, <- Hd.
    + rewrite <- drop_app_le in Ed by (by rewrite numberedFrom_length).
      rewrite <- numberedFrom_app in Ed.
      destruct (evict_drop (drop k (numberedFrom 1 (ts ++ l :: ls))))
        as (k' & Ek & Hk' & _).
      rewrite length_drop, numberedFrom_length in Hk'.
      apply (IH _ (ts ++ l :: ls) (k + k')%nat).
      * by rewrite He.
      * done.
      * by rewrite Ed, Ek, drop_drop.
      * rewrite length_app in *. lia.
      * rewrite Ex, Hx, length_app. lia.
      * rewrite Ed. apply evict_at_least; [lia|].
        rewrite length_drop, numberedFrom_length, length_app.
        rewrite Hlen in Hmin. lia.
Qed.

Lemma windows_bounded batches w :
  bounded_inv w → bounded_inv (windows batches w).
Proof.
  revert w. induction batches as [|ps batches IH]; intros w Hb; [done|].
  rewrite windows_cons. apply IH. unfold bounded_inv in *.
  destruct (flushCallback_vars (ingestAll ps w)) as (_ & _ & -> & _).
  destruct (ingestAll_vars ps w) as (_ & _ & _ & _ & _ & _ & _ & Ed & _).
  rewrite Ed.
  destruct (overflows (ingestAll ps w)); [done|].
  destruct (pendingDetails (ingestAll ps w)) as [|l ls]; [done|].
  by destruct (evict_drop (details w ++ l :: ls)) as (_ & _ & _ & ?).
Qed.

(** X11: after any windows of payloads from the initial state, however
    many lines they carry, the committed log of the revision with numbered
    lines, followed by the queue, is the end of the history of all lines
    that arrived, numbered from 1 in arrival order; the counter is the
    number of lines that arrived; and the log holds at most 10500 lines.
    While the history has at most 10500 lines it is the log.  When no
    window carries more lines than the engine passes as arguments of one
    call, nothing stays in the queue, so the log itself is the end of the
    history, and it holds at least 10000 lines, or the whole history when
    that is shorter. *)
Theorem X11_log_is_a_suffix_of_the_history
    (e : Engine) (batches : list (list Payload.t)) :
  let w := windows batches (init e) in
  let history := numberedFrom 1 (texts (concat batches)) in
  details w ++ pendingDetails w `suffix_of` history ∧
  pendingDetailIndex w = N.of_nat (length history) ∧
  Z.of_nat (length (details w)) ≤ 10500 ∧
  (Z.of_nat (length history) ≤ 10500 → details w = history) ∧
  (Forall (λ ps, Z.of_nat (length (texts ps)) ≤ maxArguments e) batches →
   pendingDetails w = [] ∧ details w `suffix_of` history ∧
   Z.min 10000 (Z.of_nat (length history)) ≤ Z.of_nat (length (details w))).
Proof.
  intros w history.
  destruct (windows_log batches (init e) []) as [Hs Hx]; try done.
  cbn [app] in Hs, Hx. fold w in Hs, Hx. fold history in Hs.
  subst history. rewrite numberedFrom_length.
  split; [done|]. split; [done|].
  split; [apply windows_bounded, init_inv|].
  split.
  - intros Hlen. by apply (windows_details batches (init e) []).
  - intros Hfit.
    destruct (windows_history batches (init e) [] 0) as [Hp Hmin]; try done.
    cbn [app] in Hmin. fold w in Hp, Hmin.
    split; [done|]. split; [|done].
    rewrite Hp, app_nil_r in Hs. done.
Qed.

Lemma X11_witness :
  let e := javaScriptCore in
  let batches := [[line "a"; Payload.empty]; [line "b"; line "c"]] in
  let w := windows batches (init e) in
  Z.of_nat (length (numberedFrom 1 (texts (concat batches)))) ≤ 10500 ∧
  Forall (λ ps, Z.of_nat (length (texts ps)) ≤ maxArguments e) batches ∧
  details w = ["[1] a"; "[2] b"; "[3] c"] ∧
  pendingDetails w = [] ∧
  pendingDetailIndex w = 3%N.
Proof.
  intros e batches w.
  assert (L : Z.of_nat (length (numberedFrom 1 (texts (concat batches)))) ≤ 10500)
    by (vm_compute; discriminate).
  assert (F : Forall (λ ps, Z.of_nat (length (texts ps)) ≤ maxArguments e)
                batches)
    by (repeat constructor; vm_compute; discriminate).
  destruct (X11_log_is_a_suffix_of_the_history e batches)
    as (_ & Ex & _ & H & H').
  split; [exact L|]. split; [exact F|]. split; [exact (H L)|].
  split; [exact (proj1 (H' F))|exact Ex].
Defined.

(** X10: the revision that keeps the log as one string never takes
    anything out of it: a flush appends the queued lines, each followed by
    a newline, to the string as it is, and the string after some windows of
    payloads is the beginning of the string after any further windows. *)
Theorem X10_text_only_grows :
  (∀ p,
     Text.details (Text.flushCallback p)
     = Text.details p +:+ blocks (pendingDetails (Text.vars p))) ∧
  (∀ e batches more,
     ∃ rest,
       Text.details (Text.windows (batches ++ more) (Text.init e))
       = Text.details (Text.windows batches (Text.init e)) +:+ rest).
Proof.
  split.
  - intros p. by destruct (Text_flushCallback_vars p) as (_ & _ & -> & _).
  - intros e batches more. exists (blocks (texts (concat more))).
    destruct (Text_windows_details (batches ++ more) (Text.init e) []
                eq_refl eq_refl) as [-> _].
    destruct (Text_windows_details batches (Text.init e) [] eq_refl eq_refl)
      as [-> _].
    cbn [app]. by rewrite concat_app, texts_app, blocks_app.
Qed.

Lemma Text_startListening_vars j p :
  let p' := Text.startListening j p in
  Text.details p' = "" ∧
  completed (Text.vars p') = 0 ∧ total (Text.vars p') = 0 ∧
  pendingCompleted (Text.vars p') = None ∧
  pendingIncrement (Text.vars p') = 0 ∧
  pendingTotal (Text.vars p') = None ∧
  pendingDetails (Text.vars p') = [] ∧
  flushHandle (Text.vars p') = None.
Proof.
  unfold Text.startListening, Text.resetPending, Text.clearDisplayedProgress,
    Text.on_vars, Text.set_details. script.
  destruct p as [s w]. cbn [Text.details Text.vars].
  destruct w as [c t d fh pu pc pi pt px pd hst]. fields.
  destruct fh, pu; done.
Qed.

(** X12: a change of the job id empties the string revision as well:
    the string, and with it the display, is empty, the counts are 0, nothing
    is pending and no flush is scheduled.  Its line numbers come from the
    position in the string, so the lines of the windows that follow are
    shown numbered from 1 again (when none of them contains a newline). *)
Theorem X12_text_rebind (p : Text.Panel) (jobId : JobId) :
  let p' := Text.startListening jobId p in
  (Text.details p' = "" ∧ Text.detailsWithLines p' = "" ∧
   completed (Text.vars p') = 0 ∧ total (Text.vars p') = 0 ∧
   pendingCompleted (Text.vars p') = None ∧
   pendingIncrement (Text.vars p') = 0 ∧
   pendingTotal (Text.vars p') = None ∧
   pendingDetails (Text.vars p') = [] ∧
   flushHandle (Text.vars p') = None) ∧
  ∀ batches,
    Forall (Forall oneLine) batches →
    Text.detailsWithLines (Text.windows batches p')
    = join newline (numberedFrom 1 (texts (concat batches))).
Proof.
  intros p'.
  destruct (Text_startListening_vars jobId p)
    as (Ed & Ec & Et & Epc & Epi & Ept & Epd & Ef).
  fold p' in Ed, Ec, Et, Epc, Epi, Ept, Epd, Ef.
  split.
  - split; [done|]. split; [|done].
    unfold Text.detailsWithLines. by rewrite Ed.
  - intros batches Hb.
    destruct (Text_windows_details batches p' [] Epd Ed) as [Ed' _].
    cbn [app] in Ed'.
    rewrite detailsWithLines_shown. unfold shownLines.
    rewrite Ed', split_blocks, slice2_drop_last; [done|].
    apply texts_oneLine, Forall_concat, Hb.
Qed.

Lemma X12_witness :
  let p := Text.windows [[line "old"]] (Text.init javaScriptCore) in
  let batches := [[line "new"]] in
  Forall (Forall oneLine) batches ∧
  Text.detailsWithLines p = "[1] old" ∧
  Text.detailsWithLines (Text.windows batches (Text.startListening JobNull p))
  = "[1] new".
Proof.
  intros p batches.
  assert (H : Forall (Forall oneLine) batches) by (repeat constructor).
  split; [exact H|]. split; [reflexivity|].
  exact (proj2 (X12_text_rebind p JobNull) batches H).
Defined.

(** ** A queue the engine cannot pass *)

Lemma window_queue e n :
  0 ≤ n →
  details (run (window n) (init e)) = [] ∧
  Z.of_nat (length (pendingDetails (run (window n) (init e)))) = n.
Proof.
  intros Hn.
  set (w0 := run [JobIdChanged (JobNumber 1); ListenResolved 1] (init e)).
  assert (run (window n) (init e)
          = ingestAll (replicate (Z.to_nat n) (line "x")) w0) as ->.
  { unfold window. rewrite run_app. apply run_emitted.
    apply list_elem_of_singleton. reflexivity. }
  destruct (ingestAll_vars (replicate (Z.to_nat n) (line "x")) w0)
    as (_ & _ & _ & _ & -> & _ & _ & -> & _).
  split; [done|].
  change (pendingDetails w0) with (@nil string). cbn [app].
  rewrite numberLines_lines by done. lia.
Qed.

Lemma overflows_turn e w :
  steady e → overflows w = true →
  details (turn e w) = details w ∧
  pendingDetails w `prefix_of` pendingDetails (turn e w) ∧
  overflows (turn e w) = true.
Proof.
  intros He Ho. destruct e as [j|id|id p|h|]; [done|..]; cbn [turn].
  - case_bool_decide; [|done]. unfold overflows in *. script.
    destruct w as [c t d fh pu pc pi pt px pd hst]. fields. done.
  - case_bool_decide; [|done]. unfold overflows in *.
    rewrite onProgress_engine.
    destruct (onProgress_vars p w) as (_ & _ & _ & _ & -> & _ & _ & -> & _).
    split; [done|]. split; [by apply prefix_app_r|].
    apply Z.gtb_lt in Ho. apply Z.gtb_lt. rewrite length_app. lia.
  - case_bool_decide; [|done]. unfold andThen.
    pose proof (overflows_dequeue h w) as Hd. rewrite Ho in Hd.
    destruct (flushCallback_vars (call (dequeueTimer h) w))
      as (_ & _ & Ed & _ & _ & _ & Ep & _).
    rewrite Hd in Ed, Ep. unfold overflows.
    rewrite Ed, Ep, flushCallback_engine. split; [by destruct w|].
    split; [by destruct w|]. exact Hd.
  - unfold overflows in *. script.
    destruct w as [c t d [h|] [u|] pc pi pt px pd hst]; fields; done.
Qed.

(** X13: once the queue holds more lines than the engine passes as
    arguments of one call, no flush commits a line any more.  Through every
    run of events in which the job id does not change, the committed log
    stays as it is, the queue keeps its lines and can only grow, and it
    still holds more lines than the engine passes.  A change of the job id
    empties the queue, and that ends it. *)
Theorem X13_overflow_persists (w : World) (es : list Event) :
  overflows w = true →
  Forall steady es →
  details (run es w) = details w ∧
  pendingDetails w `prefix_of` pendingDetails (run es w) ∧
  overflows (run es w) = true ∧
  (∀ j, pendingDetails (turn (JobIdChanged j) (run es w)) = [] ∧
        overflows (turn (JobIdChanged j) (run es w)) = false).
Proof.
  intros Ho Hes.
  assert (details (run es w) = details w ∧
          pendingDetails w `prefix_of` pendingDetails (run es w) ∧
          overflows (run es w) = true) as (Ed & Ep & Eo).
  { revert w Ho. induction Hes as [|e es He Hes IH]; intros w Ho; [done|].
    change (run (e :: es) w) with (run es (turn e w)).
    destruct (overflows_turn e w He Ho) as (Ed & Ep & Eo).
    destruct (IH (turn e w) Eo) as (Ed' & Ep' & Eo').
    split; [congruence|]. split; [by etrans|done]. }
  do 3 (split; [done|]). intros j.
  assert (pendingDetails (turn (JobIdChanged j) (run es w)) = []) as E.
  { cbn [turn]. script. by destruct (run es w) as [c t d [h|] [u|] pc pi pt px pd hst]. }
  split; [done|]. by apply overflows_nil.
Qed.

Lemma X13_witness :
  let w := run (window 65537) (init javaScriptCore) in
  let es := [TimeoutFired 1; Emitted 1 (line "y"); TimeoutFired 2;
             BeforeUnmount; TimeoutFired 2] in
  overflows w = true ∧ Forall steady es ∧
  details (run es w) = [] ∧
  overflows (run es w) = true ∧
  pendingDetails (turn (JobIdChanged JobNull) (run es w)) = [].
Proof.
  intros w es.
  destruct (window_queue javaScriptCore 65537) as [Ed El]; [lia|].
  fold w in Ed, El.
  assert (Ho : overflows w = true).
  { unfold overflows. rewrite El. unfold w. rewrite run_engine.
    apply Z.gtb_lt. change (maxArguments (engine (host (init javaScriptCore))))
      with 65536. lia. }
  assert (Hes : Forall steady es) by (repeat constructor).
  destruct (X13_overflow_persists w es Ho Hes) as (Hd & _ & Ho' & Hj).
  split; [exact Ho|]. split; [exact Hes|].
  split; [exact (eq_trans Hd Ed)|].
  split; [exact Ho'|exact (proj1 (Hj JobNull))].
Defined.
